(** * boty: a Telegram bot that collects captioned videos and zips them

    Shallow embedding of [boty.py] and the properties of its handlers
    [start], [handle_video], [create_zip] and of [cleanup_files].

    Python values are modelled as follows.
    - [str] is a sequence of Unicode code points: [list N].
    - [int] is [Z]; [str(int)] is the decimal rendering.
    - [context.user_data] is a dict of which only the key ['videos'] is
      used: [option (list pending_video)], [None] when the key is absent.
    - The temporary directory is a finite map from paths to file contents;
      [os.path.exists] is a lookup and [os.remove] deletes the key. Paths
      are POSIX paths.
    - Messages sent back to the chat are appended to an outbox.
    - Exceptions are values threaded through a small state-and-error
      monad in which, as in Python, the state reached when an exception
      is raised is kept.

    Downloads and the replies of [start], [handle_video] and the
    empty-collection branch of [create_zip] go through. Failures of the
    environment are injected where the source guards against them: in the
    [try] block of [create_zip] and in the error reply of its [except]
    block. An exception that leaves a handler is handed to
    [error_handler], as [main] registers it. *)

From Stdlib Require Import ZArith NArith String Ascii List Bool Lia.
From Stdlib Require Import DecimalString DecimalZ.
From stdpp Require Import gmap list.

Local Open Scope N_scope.

(** ** Strings *)

Abbreviation char := N.
Abbreviation str := (list N).

(** An ASCII literal as a Python string. *)
Fixpoint u (s : string) : str :=
  match s with
  | EmptyString => []
  | String a s' => N_of_ascii a :: u s'
  end.
Arguments u _%_string.

(** [str(n)] for an [int]. *)
Definition str_int (n : Z) : str := u (NilEmpty.string_of_int (Z.to_int n)).

(** [str.isspace] for one code point: the characters [str.strip()]
    removes. *)
Definition isspace (c : char) : bool :=
  ((0x09 <=? c) && (c <=? 0x0D)) || ((0x1C <=? c) && (c <=? 0x20))
  || (c =? 0x85) || (c =? 0xA0) || (c =? 0x1680)
  || ((0x2000 <=? c) && (c <=? 0x200A))
  || (c =? 0x2028) || (c =? 0x2029) || (c =? 0x202F) || (c =? 0x205F)
  || (c =? 0x3000).

(** [str.isalnum] on U+0000..U+00FF: the ASCII letters and digits, and the
    Latin-1 letters, superscript digits and vulgar fractions. *)
Definition isalnum_latin1 (c : char) : bool :=
  ((0x30 <=? c) && (c <=? 0x39)) || ((0x41 <=? c) && (c <=? 0x5A))
  || ((0x61 <=? c) && (c <=? 0x7A))
  || (c =? 0xAA) || (c =? 0xB2) || (c =? 0xB3) || (c =? 0xB5) || (c =? 0xB9)
  || (c =? 0xBA) || ((0xBC <=? c) && (c <=? 0xBE))
  || ((0xC0 <=? c) && (c <=? 0xD6)) || ((0xD8 <=? c) && (c <=? 0xF6))
  || ((0xF8 <=? c) && (c <=? 0xFF)).

(** The character class [A-Za-z0-9 _-]. *)
Definition ascii_class (c : char) : bool :=
  ((0x30 <=? c) && (c <=? 0x39)) || ((0x41 <=? c) && (c <=? 0x5A))
  || ((0x61 <=? c) && (c <=? 0x7A))
  || (c =? 0x20) || (c =? 0x5F) || (c =? 0x2D).

(** Drop the longest prefix whose characters satisfy [p]. *)
Fixpoint dropwhile (p : char -> bool) (s : str) : str :=
  match s with
  | [] => []
  | c :: s' => if p c then dropwhile p s' else s
  end.

Definition lstrip (s : str) : str := dropwhile isspace s.
Definition rstrip (s : str) : str := rev (dropwhile isspace (rev s)).
(** [s.strip()] *)
Definition strip (s : str) : str := rstrip (lstrip s).

(** [s.replace(' ', '_')] *)
Definition replace_space (s : str) : str :=
  map (fun c => if c =? 0x20 then 0x5F else c) s.

(** Removal of leading and trailing U+0020 only. *)
Definition is_blank (c : char) : bool := c =? 0x20.
Definition strip_blanks (s : str) : str :=
  rev (dropwhile is_blank (rev (dropwhile is_blank s))).

(** ** The runtime the module is loaded in *)

Definition bytes := list N.

Record runtime := {
  (** [str.isalnum] above U+00FF, as decided by the Unicode database of
      the interpreter. *)
  unicode_alnum : char -> bool;
  (** [TEMP_DIR = tempfile.mkdtemp(prefix="video_bot_")] *)
  TEMP_DIR : str;
  (** The payload Telegram serves for a [file_id]. *)
  telegram_file : str -> bytes;
  (** [str.isprintable] above U+00FF, by the same database. *)
  unicode_printable : char -> bool
}.

(** A runtime for concrete runs: no alphanumerics above U+00FF, empty
    payloads, every character above U+00FF printable. *)
Definition example_runtime : runtime :=
  {| unicode_alnum := fun _ => false;
     TEMP_DIR := u "/tmp/video_bot_x";
     telegram_file := fun _ => [];
     unicode_printable := fun _ => true |}.

(** ** The filename sanitizer of [handle_video] *)

Definition isalnum (rt : runtime) (c : char) : bool :=
  if c <? 0x100 then isalnum_latin1 c else unicode_alnum rt c.

(** The generator condition [c.isalnum() or c in (' ', '-', '_')]. *)
Definition keep (rt : runtime) (c : char) : bool :=
  isalnum rt c || ((c =? 0x20) || (c =? 0x2D) || (c =? 0x5F)).

(** The part of [sanitized_name] before the extension. *)
Definition stem (rt : runtime) (description : str) : str :=
  replace_space (strip (List.filter (keep rt) description)).

Definition sanitized_name (rt : runtime) (description : str) : str :=
  stem rt description ++ u ".mp4".

(** ** Paths *)

Definition sep : char := 0x2F.
Definition extsep : char := 0x2E.

Definition startswith (c : char) (s : str) : bool :=
  match s with x :: _ => x =? c | [] => false end.
Definition endswith (c : char) (s : str) : bool :=
  match last s with Some x => x =? c | None => false end.

(** [posixpath.join(a, b)] *)
Definition path_join (a b : str) : str :=
  if startswith sep b then b
  else if match a with [] => true | _ => false end || endswith sep a then a ++ b
  else a ++ sep :: b.

(** [s.rfind(c)] counted from index [i] of the whole string: the index of
    the last occurrence, [-1] when there is none. *)
Fixpoint rfind_from (c : char) (s : str) (i : Z) : Z :=
  match s with
  | [] => (-1)%Z
  | x :: s' =>
      let r := rfind_from c s' (i + 1)%Z in
      if (0 <=? r)%Z then r else if x =? c then i else (-1)%Z
  end.
Definition rfind (c : char) (s : str) : Z := rfind_from c s 0.

(** [s[i:j]] for indices within the string. *)
Definition slice (s : str) (i j : Z) : str :=
  firstn (Z.to_nat (j - i)) (skipn (Z.to_nat i) s).

(** [posixpath.splitext(p)]: split at the last dot of the last path
    component, unless only dots precede it. *)
Definition splitext (p : str) : str * str :=
  let sepIndex := rfind sep p in
  let dotIndex := rfind extsep p in
  if (sepIndex <? dotIndex)%Z
     && existsb (fun c => negb (c =? extsep)) (slice p (sepIndex + 1) dotIndex)
  then (firstn (Z.to_nat dotIndex) p, skipn (Z.to_nat dotIndex) p)
  else (p, []).

Fixpoint str_eqb (a b : str) : bool :=
  match a, b with
  | [], [] => true
  | x :: a', y :: b' => (x =? y) && str_eqb a' b'
  | _, _ => false
  end.

(** [s.split('/')] *)
Fixpoint split_sep (s : str) : list str :=
  match s with
  | [] => [[]]
  | c :: s' =>
      if c =? sep then [] :: split_sep s'
      else match split_sep s' with
           | comp :: comps => (c :: comp) :: comps
           | [] => [[c]]
           end
  end.

(** ['/'.join(comps)] *)
Fixpoint join_sep (comps : list str) : str :=
  match comps with
  | [] => []
  | [comp] => comp
  | comp :: comps' => comp ++ sep :: join_sep comps'
  end.

(** One round of the loop of [posixpath.normpath] over the components. *)
Definition normpath_step (initial_slashes : nat) (new_comps : list str) (comp : str)
  : list str :=
  if str_eqb comp [] || str_eqb comp (u ".") then new_comps
  else if negb (str_eqb comp (u ".."))
          || (Nat.eqb initial_slashes 0 && match new_comps with [] => true | _ => false end)
          || match last new_comps with Some c => str_eqb c (u "..") | None => false end
       then new_comps ++ [comp]
       else removelast new_comps.

(** The number of leading slashes [normpath] keeps: one, or two when the
    path starts with exactly two. *)
Definition initial_slashes (path : str) : nat :=
  if startswith sep path then
    match path with
    | _ :: b :: rest =>
        if (b =? sep) && negb (startswith sep rest) then 2%nat else 1%nat
    | _ => 1%nat
    end
  else 0%nat.

(** [posixpath.normpath(path)] *)
Definition normpath (path : str) : str :=
  match path with
  | [] => u "."
  | _ =>
      let comps :=
        fold_left (normpath_step (initial_slashes path)) (split_sep path) [] in
      let joined := repeat sep (initial_slashes path) ++ join_sep comps in
      match joined with [] => u "." | _ => joined end
  end.

(** Cut a string at its first NUL. *)
Fixpoint truncate_nul (s : str) : str :=
  match s with
  | [] => []
  | c :: s' => if c =? 0 then [] else c :: truncate_nul s'
  end.

(** The entry name [ZipInfo.from_file] stores for [arcname]: the
    normalised path without leading separators, cut at the first NUL.
    [None] stands for the [IndexError] of [arcname[0]] on a name that
    normalises to separators only. *)
Definition stored_arcname (arcname : str) : option str :=
  match dropwhile (fun c => c =? sep) (normpath arcname) with
  | [] => None
  | stripped => Some (truncate_nul stripped)
  end.

(** [os.path.join(TEMP_DIR, f"temp_{user_id}_{file_unique_id}.mp4")] *)
Definition temp_video_path (rt : runtime) (user_id : Z) (file_unique_id : str) : str :=
  path_join (TEMP_DIR rt)
    (u "temp_" ++ str_int user_id ++ u "_" ++ file_unique_id ++ u ".mp4").

(** [os.path.join(TEMP_DIR, f"videos_{user_id}.zip")] *)
Definition zip_path_of (rt : runtime) (user_id : Z) : str :=
  path_join (TEMP_DIR rt) (u "videos_" ++ str_int user_id ++ u ".zip").

(** ** Session state, filesystem and chat *)

(** A pending video record, the dict [{'path': ..., 'name': ...}]. *)
Record pending_video := { path : str; name : str }.

(** A file of the temporary directory: a downloaded payload, or an
    archive with its entries in the order they were written. *)
Inductive file :=
| Blob (data : bytes)
| Zip (entries : list member)
with member :=
| Member (arcname : str) (content : file).

Definition arcname_of (m : member) : str :=
  match m with Member arcname _ => arcname end.

(** What the bot sends to the chat. *)
Inductive event :=
| reply_text (text : str)
| reply_document (document : file) (caption filename : str).

Record state := {
  (** [context.user_data.get('videos')], [None] when the key is absent *)
  user_data : option (list pending_video);
  fs : gmap str file;
  outbox : list event
}.

Definition collection (st : state) : list pending_video :=
  match user_data st with Some videos => videos | None => [] end.

Inductive exn :=
| FileNotFoundError (filename : str)
| KeyError (key : str)
| IndexError (message : str)
| OtherError (message : str).

(** [str.isprintable] for one code point. *)
Definition isprintable (rt : runtime) (c : char) : bool :=
  if c <? 0x80 then (0x20 <=? c) && (c <? 0x7F)
  else if c <? 0x100 then (0xA1 <=? c) && negb (c =? 0xAD)
  else unicode_printable rt c.

Definition hex_digit (n : N) : char :=
  if n <? 10 then 0x30 + n else 0x61 + (n - 10).

(** The last [k] hexadecimal digits of [n], in lower case. *)
Fixpoint hex_digits (k : nat) (n : N) : str :=
  match k with
  | O => []
  | S k' => hex_digits k' (n / 16) ++ [hex_digit (n mod 16)]
  end.

(** One character inside [repr(s)], for the quote [repr] has chosen. *)
Definition repr_char (rt : runtime) (quote : char) (c : char) : str :=
  if (c =? quote) || (c =? 0x5C) then [0x5C; c]
  else if c =? 0x09 then u "\t"
  else if c =? 0x0A then u "\n"
  else if c =? 0x0D then u "\r"
  else if (c <? 0x20) || (c =? 0x7F) then u "\x" ++ hex_digits 2 c
  else if c <? 0x7F then [c]
  else if isprintable rt c then [c]
  else if c <? 0x100 then u "\x" ++ hex_digits 2 c
  else if c <? 0x10000 then u "\u" ++ hex_digits 4 c
  else u "\U" ++ hex_digits 8 c.

(** [repr(s)] of a [str]: single quotes, unless the string has a single
    quote and no double quote. *)
Definition py_repr (rt : runtime) (s : str) : str :=
  let quote :=
    if existsb (N.eqb 0x27) s && negb (existsb (N.eqb 0x22) s) then 0x22 else 0x27 in
  quote :: flat_map (repr_char rt quote) s ++ [quote].

(** [str(e)] *)
Definition exn_str (rt : runtime) (e : exn) : str :=
  match e with
  | FileNotFoundError f => u "[Errno 2] No such file or directory: " ++ py_repr rt f
  | KeyError k => py_repr rt k
  | IndexError m => m
  | OtherError m => m
  end.

(** ** Computations that change the state and may raise *)

Inductive outcome (A : Type) :=
| Returned (a : A)
| Raised (e : exn).
Arguments Returned {A} a.
Arguments Raised {A} e.

Definition M (A : Type) : Type := state -> outcome A * state.

Definition ret {A} (a : A) : M A := fun st => (Returned a, st).
Definition raise {A} (e : exn) : M A := fun st => (Raised e, st).
Definition bind {A B} (m : M A) (k : A -> M B) : M B :=
  fun st => match m st with
            | (Returned a, st') => k a st'
            | (Raised e, st') => (Raised e, st')
            end.
(** [try: m except Exception as e: handler(e)] *)
Definition try_except {A} (m : M A) (handler : exn -> M A) : M A :=
  fun st => match m st with
            | (Returned a, st') => (Returned a, st')
            | (Raised e, st') => handler e st'
            end.

Declare Scope py_scope.
Delimit Scope py_scope with py.
Notation "x <- m ;; k" := (bind m (fun x => k))
  (at level 100, m at next level, k at level 200, right associativity) : py_scope.
Notation "m ;; k" := (bind m (fun _ => k))
  (at level 100, k at level 200, right associativity) : py_scope.
Local Open Scope py_scope.

(** [for x in xs: body(x)] *)
Fixpoint for_in {A} (xs : list A) (body : A -> M unit) : M unit :=
  match xs with
  | [] => ret tt
  | x :: xs' => body x ;; for_in xs' body
  end.

(** [context.user_data['videos']] *)
Definition get_videos : M (list pending_video) :=
  fun st => match user_data st with
            | Some videos => (Returned videos, st)
            | None => (Raised (KeyError (u "videos")), st)
            end.

(** [context.user_data['videos'] = videos] *)
Definition set_videos (videos : list pending_video) : M unit :=
  fun st => (Returned tt,
             {| user_data := Some videos; fs := fs st; outbox := outbox st |}).

(** ['videos' in context.user_data] *)
Definition has_videos : M bool :=
  fun st => (Returned (match user_data st with Some _ => true | None => false end), st).

Definition send (ev : event) : M unit :=
  fun st => (Returned tt,
             {| user_data := user_data st; fs := fs st; outbox := outbox st ++ [ev] |}).

Definition os_path_exists (p : str) : M bool :=
  fun st => (Returned (match fs st !! p with Some _ => true | None => false end), st).

Definition os_remove (p : str) : M unit :=
  fun st => match fs st !! p with
            | Some _ => (Returned tt,
                         {| user_data := user_data st; fs := delete p (fs st);
                            outbox := outbox st |})
            | None => (Raised (FileNotFoundError p), st)
            end.

Definition write_file (p : str) (f : file) : M unit :=
  fun st => (Returned tt,
             {| user_data := user_data st; fs := <[p := f]> (fs st);
                outbox := outbox st |}).

(** [open(p, 'rb')] *)
Definition open_rb (p : str) : M file :=
  fun st => match fs st !! p with
            | Some f => (Returned f, st)
            | None => (Raised (FileNotFoundError p), st)
            end.

(** ** Inbound messages *)

(** A [Video] or [Document] attachment. *)
Record attachment := { file_id : str; file_unique_id : str }.

(** The fields of [update.message] the handlers read. *)
Record message := {
  video : option attachment;
  document : option attachment;
  caption : option str
}.

(** [a or b] on optional objects. *)
Definition py_or {A} (a b : option A) : option A :=
  match a with Some _ => a | None => b end.

(** ** Message texts *)

Definition warning_sign : str := [0x26A0; 0xFE0F].
Definition check_mark : str := [0x2705].
Definition camera : str := [0x1F4F9].
Definition nl : str := [0x0A].

Definition start_text : str :=
  camera ++ u " Video Collector Bot" ++ nl ++ nl
  ++ u "1. Send me video files with descriptions (captions)" ++ nl
  ++ u "2. I'll collect them all" ++ nl
  ++ u "3. Send /zip when you're done to get a zip file" ++ nl
  ++ u "4. All videos will be named according to their descriptions" ++ nl ++ nl
  ++ u "Send your first video with a description to begin!".

Definition no_video_text : str := warning_sign ++ u " Please send a valid video file!".
Definition no_caption_text : str :=
  warning_sign ++ u " Please include a description (caption) with your video!".
Definition saved_text (sanitized : str) (count : nat) : str :=
  check_mark ++ u " Video saved as: " ++ sanitized ++ nl
  ++ u "Total videos collected: " ++ str_int (Z.of_nat count) ++ nl
  ++ u "Send more videos or /zip when done".
Definition empty_text : str := warning_sign ++ u " No videos collected yet!".
Definition error_text (rt : runtime) (e : exn) : str :=
  warning_sign ++ u " Error creating zip file: " ++ exn_str rt e.
Definition zip_caption : str := u "Here are your videos with descriptive names!".

(** ** The handlers *)

(** [start]: reply with the instructions, then reset the collection. *)
Definition start : M unit :=
  send (reply_text start_text) ;;
  set_videos [].

(** [handle_video]. [bot.get_file] followed by [download_to_drive] stores
    the payload Telegram serves for the attachment under the given path. *)
Definition handle_video (rt : runtime) (user_id : Z) (msg : message) : M unit :=
  present <- has_videos ;;
  (if negb present then set_videos [] else ret tt) ;;
  match py_or (video msg) (document msg) with
  | None => send (reply_text no_video_text)
  | Some video_file =>
      match caption msg with
      | None | Some [] => send (reply_text no_caption_text)
      | Some description =>
          let sanitized := sanitized_name rt description in
          let temp_path := temp_video_path rt user_id (file_unique_id video_file) in
          write_file temp_path (Blob (telegram_file rt (file_id video_file))) ;;
          videos <- get_videos ;;
          set_videos (videos ++ [{| path := temp_path; name := sanitized |}]) ;;
          videos <- get_videos ;;
          send (reply_text (saved_text sanitized (length videos)))
      end
  end.

(** [if os.path.exists(p): os.remove(p)] under [try ... except: pass]. *)
Definition remove_if_exists (p : str) : M unit :=
  try_except
    (found <- os_path_exists p ;; if found then os_remove p else ret tt)
    (fun _ => ret tt).

Definition cleanup_files (videos : list pending_video) (zip_path : str) : M unit :=
  for_in videos (fun video => remove_if_exists (path video)) ;;
  remove_if_exists zip_path.

(** Failures of the environment during a build. Inside the [try] block
    of [create_zip]: opening the archive for writing, writing one entry
    (given the entries already written and the record being written),
    closing the archive, delivering the document. Inside its [except]
    block: sending the error reply. [None] means the operation goes
    through. *)
Record faults := {
  open_fault : option exn;
  write_fault : list member -> pending_video -> option exn;
  close_fault : option exn;
  send_fault : option exn;
  error_reply_fault : option exn
}.

Definition zip_entries (o : option file) : list member :=
  match o with Some (Zip entries) => entries | _ => [] end.

(** [zipfile.ZipFile(zip_path, 'w')]: creates or truncates the file. *)
Definition ZipFile (ft : faults) (zip_path : str) : M unit :=
  match open_fault ft with
  | Some e => raise e
  | None => write_file zip_path (Zip [])
  end.

(** [zipf.write(filename, arcname)]: looks the source file up, fixes the
    entry name, then copies the file into one more entry, also when the
    archive already has an entry of that name. *)
Definition zipf_write (ft : faults) (zip_path : str) (video : pending_video) : M unit :=
  fun st =>
    match fs st !! path video with
    | None => (Raised (FileNotFoundError (path video)), st)
    | Some f =>
        match stored_arcname (name video) with
        | None => (Raised (IndexError (u "string index out of range")), st)
        | Some arcname =>
            let entries := zip_entries (fs st !! zip_path) in
            match write_fault ft entries video with
            | Some e => (Raised e, st)
            | None => write_file zip_path (Zip (entries ++ [Member arcname f])) st
            end
        end
    end.

(** [update.message.reply_document(document=..., caption=..., filename=...)] *)
Definition send_document (ft : faults) (doc : file) (cap filename : str) : M unit :=
  match send_fault ft with
  | Some e => raise e
  | None => send (reply_document doc cap filename)
  end.

(** [videos[0]] *)
Definition item0 (videos : list pending_video) : M pending_video :=
  match videos with
  | v :: _ => ret v
  | [] => raise (IndexError (u "list index out of range"))
  end.

(** [zipf.close()]; the file keeps the entries written so far. *)
Definition zipf_close (ft : faults) : M unit :=
  match close_fault ft with
  | Some e => raise e
  | None => ret tt
  end.

(** [with ... as zipf: body]: the archive is closed however the body
    ends, and an exception of the closing replaces the body's. *)
Definition with_close {A} (body : M A) (close : M unit) : M A :=
  fun st =>
    let (r, st1) := body st in
    match close st1 with
    | (Returned _, st2) => (r, st2)
    | (Raised e, st2) => (Raised e, st2)
    end.

(** The [with zipfile.ZipFile(zip_path, 'w') as zipf: for ...] statement. *)
Definition write_archive (ft : faults) (zip_path : str) : M unit :=
  ZipFile ft zip_path ;;
  with_close (videos <- get_videos ;; for_in videos (zipf_write ft zip_path))
             (zipf_close ft).

(** The body of the [try] block of [create_zip]. *)
Definition build_and_send (ft : faults) (zip_path zip_filename : str) : M unit :=
  write_archive ft zip_path ;;
  doc <- open_rb zip_path ;;
  send_document ft doc zip_caption zip_filename ;;
  videos <- get_videos ;;
  cleanup_files videos zip_path ;;
  set_videos [].

(** [update.message.reply_text(...)] in the [except] block. *)
Definition send_error_reply (ft : faults) (text : str) : M unit :=
  match error_reply_fault ft with
  | Some e => raise e
  | None => send (reply_text text)
  end.

(** The [except Exception as e] block of [create_zip]: the reply comes
    first; when it raises, the cleanup and the reset are not reached. *)
Definition report_and_cleanup (rt : runtime) (ft : faults) (zip_path : str) (e : exn)
  : M unit :=
  send_error_reply ft (error_text rt e) ;;
  videos <- get_videos ;;
  cleanup_files videos zip_path ;;
  set_videos [].

(** ['videos' not in context.user_data or not context.user_data['videos']] *)
Definition nothing_collected : M bool :=
  present <- has_videos ;;
  if negb present then ret true
  else (videos <- get_videos ;;
        ret (match videos with [] => true | _ => false end)).

Definition create_zip (rt : runtime) (ft : faults) (user_id : Z) : M unit :=
  none <- nothing_collected ;;
  if none then send (reply_text empty_text)
  else (
    videos <- get_videos ;;
    first <- item0 videos ;;
    let base_name := fst (splitext (name first)) in
    let zip_filename := base_name ++ u ".zip" in
    let zip_path := zip_path_of rt user_id in
    try_except (build_and_send ft zip_path zip_filename)
               (report_and_cleanup rt ft zip_path)).

(** [error_handler]: after the log line, drop the collection and the
    files of the user the failed update came from, if it has a
    collection. [None] stands for an update without [effective_user]. *)
Definition error_handler (rt : runtime) (effective_user : option Z) : M unit :=
  match effective_user with
  | Some user_id =>
      present <- has_videos ;;
      if present then (
        videos <- get_videos ;;
        cleanup_files videos (zip_path_of rt user_id) ;;
        set_videos [])
      else ret tt
  | None => ret tt
  end.

(** Running a handler: the state it leaves. *)
Definition exec {A} (m : M A) (st : state) : state := snd (m st).
Definition result {A} (m : M A) (st : state) : outcome A := fst (m st).

(** The filesystem after [os.remove] of each listed path in turn, absent
    paths being skipped. *)
Fixpoint delete_paths (ps : list str) (m : gmap str file) : gmap str file :=
  match ps with
  | [] => m
  | p :: ps' => delete_paths ps' (delete p m)
  end.

(** Two states that differ only in the file under [zp]. *)
Definition same_but (zp : str) (st st1 : state) : Prop :=
  user_data st1 = user_data st /\ outbox st1 = outbox st /\
  forall p : str, p <> zp -> fs st1 !! p = fs st !! p.

(** No failure of the environment. *)
Definition no_faults : faults :=
  {| open_fault := None; write_fault := fun _ _ => None; close_fault := None;
     send_fault := None; error_reply_fault := None |}.

(** ** States and messages for concrete runs *)

(** A fresh session: nothing collected, an empty temporary directory. *)
Definition fresh_state : state :=
  {| user_data := None; fs := ∅; outbox := [] |}.

(** A session whose only record points to a file that is not there. *)
Definition missing_source_state : state :=
  {| user_data := Some [{| path := u "/tmp/video_bot_x/temp_7_a.mp4";
                           name := u "a.mp4" |}];
     fs := ∅; outbox := [] |}.

Definition video_message (unique : str) (text : option str) : message :=
  {| video := Some {| file_id := u "id_" ++ unique; file_unique_id := unique |};
     document := None; caption := text |}.


(** The attachment and caption of a message [handle_video] accepts. *)
Definition accepted (msg : message) : option (attachment * str) :=
  match py_or (video msg) (document msg), caption msg with
  | Some a, Some (c :: d) => Some (a, c :: d)
  | _, _ => None
  end.

(** The record [handle_video] appends for an accepted message. *)
Definition record_of (rt : runtime) (user_id : Z) (item : attachment * str)
  : pending_video :=
  {| path := temp_video_path rt user_id (file_unique_id (fst item));
     name := sanitized_name rt (snd item) |}.

(** The archive stores the name of every record as it is. *)
Definition names_plain (videos : list pending_video) : Prop :=
  Forall (fun v => stored_arcname (name v) = Some (name v)) videos.

(** Every collected record still has its file. *)
Definition sources_present (st : state) : Prop :=
  Forall (fun v => is_Some (fs st !! path v)) (collection st).

(** ** The handler table of [main] *)

(** What the application hands to the session of one user: the [/start]
    command, the [/zip] command (with what the environment does to that
    build), a message that passed the video filter, or a failure the
    application routes to [error_handler] (with or without an
    [effective_user] on the update). *)
Inductive update :=
| start_command
| zip_command (ft : faults)
| video_update (msg : message)
| error_update (with_user : bool).

(** A handler under [add_error_handler(error_handler)]: when it raises,
    the application calls [error_handler] with the same update, whose
    user is the session's. *)
Definition routed (rt : runtime) (user_id : Z) (handler : M unit) : M unit :=
  try_except handler (fun _ => error_handler rt (Some user_id)).

(** The handler [main] registers for each kind of update. *)
Definition dispatch (rt : runtime) (user_id : Z) (upd : update) : M unit :=
  match upd with
  | start_command => routed rt user_id start
  | zip_command ft => routed rt user_id (create_zip rt ft user_id)
  | video_update msg => routed rt user_id (handle_video rt user_id msg)
  | error_update with_user =>
      error_handler rt (if with_user then Some user_id else None)
  end.

(** The updates of one session, handled one after the other. *)
Definition run (rt : runtime) (user_id : Z) (updates : list update) : M unit :=
  for_in updates (dispatch rt user_id).

(** The payload [handle_video] downloads for an accepted message. *)
Definition payload_of (rt : runtime) (item : attachment * str) : file :=
  Blob (telegram_file rt (file_id (fst item))).

(** What a session keeps between two updates: every record was made by
    [handle_video] for this user, its file is there, and the session's
    archive file is not. *)
Definition session_inv (rt : runtime) (user_id : Z) (st : state) : Prop :=
  sources_present st /\
  Forall (fun v => exists item, v = record_of rt user_id item) (collection st) /\
  fs st !! zip_path_of rt user_id = None.

(** A path that is neither a temporary video path nor the archive path
    of the user. *)
Definition foreign (rt : runtime) (user_id : Z) (p : str) : Prop :=
  (forall unique, p <> temp_video_path rt user_id unique) /\
  p <> zip_path_of rt user_id.

(** The loop [main] runs once polling has stopped, over the names
    [os.listdir(TEMP_DIR)] returned: [os.remove] of each under
    [try ... except: pass]. *)
Definition remove_listed (rt : runtime) (names : list str) : M unit :=
  for_in names (fun filename =>
    try_except (os_remove (path_join (TEMP_DIR rt) filename)) (fun _ => ret tt)).

(** [str.isalnum] of the runtime holds for no whitespace character, as in
    every version of the Unicode database. *)
Definition unicode_consistent (rt : runtime) : Prop :=
  forall c, isspace c = true -> unicode_alnum rt c = false.

(** * Properties *)

(** ** Character classes *)

Ltac bool_to_prop :=
  repeat match goal with
  | H : _ |- _ =>
      progress rewrite ?orb_true_iff, ?andb_true_iff, ?orb_false_iff,
        ?andb_false_iff, ?N.leb_le, ?N.eqb_eq, ?N.leb_gt, ?N.eqb_neq,
        ?N.ltb_lt, ?N.ltb_ge in H
  end;
  rewrite ?orb_true_iff, ?andb_true_iff, ?orb_false_iff, ?andb_false_iff,
    ?N.leb_le, ?N.eqb_eq, ?N.leb_gt, ?N.eqb_neq, ?N.ltb_lt, ?N.ltb_ge.

Lemma ascii_class_keep rt c : ascii_class c = true -> keep rt c = true.
Proof.
  unfold ascii_class, keep, isalnum, isalnum_latin1. intros H.
  destruct (N.ltb_spec c 0x100); bool_to_prop; lia.
Qed.

Lemma ascii_class_isspace c : ascii_class c = true -> isspace c = is_blank c.
Proof.
  unfold is_blank. intros H. destruct (N.eqb_spec c 0x20) as [-> | Hne]; [reflexivity |].
  apply not_true_is_false. intros Hs.
  unfold ascii_class in H. unfold isspace in Hs. bool_to_prop. lia.
Qed.

(** ** Lists *)

Lemma filter_all {A} (p : A -> bool) (l : list A) :
  Forall (fun x => p x = true) l -> List.filter p l = l.
Proof.
  induction 1 as [| x l Hx _ IH]; simpl; [reflexivity |].
  rewrite Hx, IH. reflexivity.
Qed.

Lemma Forall_filter_sat {A} (p : A -> bool) (l : list A) :
  Forall (fun x => p x = true) (List.filter p l).
Proof.
  induction l as [| x l IH]; simpl; [constructor |].
  destruct (p x) eqn:E; [constructor |]; assumption.
Qed.

Lemma dropwhile_suffix p s : exists pre, s = pre ++ dropwhile p s.
Proof.
  induction s as [| c s [pre IH]]; simpl.
  - exists []. reflexivity.
  - destruct (p c).
    + exists (c :: pre). simpl. f_equal. exact IH.
    + exists []. reflexivity.
Qed.

Lemma Forall_dropwhile (P : char -> Prop) p s : Forall P s -> Forall P (dropwhile p s).
Proof.
  intros H. destruct (dropwhile_suffix p s) as [pre E].
  rewrite E in H. apply Forall_app in H. tauto.
Qed.

Lemma Forall_strip (P : char -> Prop) s : Forall P s -> Forall P (strip s).
Proof.
  intros H. unfold strip, rstrip, lstrip.
  apply Forall_rev, Forall_dropwhile, Forall_rev, Forall_dropwhile, H.
Qed.

Lemma dropwhile_ext (P : char -> Prop) p q s :
  (forall c, P c -> p c = q c) -> Forall P s -> dropwhile p s = dropwhile q s.
Proof.
  intros Hpq. induction 1 as [| c s Hc _ IH]; simpl; [reflexivity |].
  rewrite (Hpq c Hc), IH. reflexivity.
Qed.

Lemma dropwhile_head p s : (forall c, head s = Some c -> p c = false) -> dropwhile p s = s.
Proof.
  destruct s as [| c s]; simpl; [reflexivity |].
  intros H. rewrite (H c eq_refl). reflexivity.
Qed.

(** ** The sanitizer *)

Lemma strip_ascii_class s :
  Forall (fun c => ascii_class c = true) s -> strip s = strip_blanks s.
Proof.
  intros H. unfold strip, rstrip, lstrip, strip_blanks.
  rewrite (dropwhile_ext _ isspace is_blank s ascii_class_isspace H).
  f_equal. apply (dropwhile_ext _ isspace is_blank _ ascii_class_isspace).
  apply Forall_rev, Forall_dropwhile, H.
Qed.

Lemma strip_blanks_id s :
  head s <> Some 0x20 -> last s <> Some 0x20 -> strip_blanks s = s.
Proof.
  intros Hh Hl. unfold strip_blanks.
  assert (E : dropwhile is_blank s = s).
  { apply dropwhile_head. intros c Hc. unfold is_blank.
    apply N.eqb_neq. intros ->. contradiction. }
  rewrite E. destruct s as [| x s' _] using rev_ind; [reflexivity |].
  rewrite rev_app_distr. simpl.
  rewrite last_snoc in Hl.
  destruct (is_blank x) eqn:Eb.
  - unfold is_blank in Eb. apply N.eqb_eq in Eb. subst x. contradiction.
  - simpl. rewrite rev_involutive. reflexivity.
Qed.

Lemma replace_space_charset rt s :
  Forall (fun c => keep rt c = true) s ->
  Forall (fun c => (isalnum rt c = true \/ c = 0x2D \/ c = 0x5F) /\ c <> 0x20)
         (replace_space s).
Proof.
  unfold replace_space. induction 1 as [| c s Hc _ IH]; simpl; constructor; trivial.
  destruct (N.eqb_spec c 0x20) as [-> | Hne].
  - split; [auto | discriminate].
  - split; [| destruct (N.eqb_spec c 0x20); congruence].
    unfold keep in Hc. bool_to_prop. tauto.
Qed.

Lemma stem_charset rt description :
  Forall (fun c => (isalnum rt c = true \/ c = 0x2D \/ c = 0x5F) /\ c <> 0x20)
         (stem rt description).
Proof.
  unfold stem. apply replace_space_charset, Forall_strip, Forall_filter_sat.
Qed.

Example sanitize_my_trip :
  sanitized_name example_runtime (u "My Trip! (2024)") = u "My_Trip_2024.mp4".
Proof. reflexivity. Qed.

(** C3, as the code has it: for every caption the sanitizer's output is a
    stem followed by the extension [".mp4"], and every character of the
    stem is alphanumeric in the sense of [str.isalnum] (which covers the
    letters and digits of all scripts, not only [A-Za-z0-9]), a hyphen or
    an underscore; in particular none is a space. *)
Theorem sanitized_name_charset (rt : runtime) (description : str) :
  sanitized_name rt description = stem rt description ++ u ".mp4" /\
  Forall (fun c => (isalnum rt c = true \/ c = 0x2D \/ c = 0x5F) /\ c <> 0x20)
         (stem rt description).
Proof.
  split; [reflexivity | apply stem_charset].
Qed.

(** C3 as stated fails: for the caption ["é"] (U+00E9, for which
    [str.isalnum] holds) the output is ["é.mp4"], whose stem lies outside
    [A-Za-z0-9 _-]. *)
Lemma sanitized_name_ascii_only_fails :
  ~ (forall (rt : runtime) (description : str),
       sanitized_name rt description = stem rt description ++ u ".mp4" /\
       Forall (fun c => ascii_class c = true) (stem rt description)).
Proof.
  intros H.
  destruct (H example_runtime [0xE9]) as [_ Hall].
  vm_compute in Hall. inversion Hall as [| ? ? Hc _]. discriminate Hc.
Qed.

(** On a caption made of kept characters only, of any script, the filter
    changes nothing: the name is the caption without its leading and
    trailing whitespace, spaces replaced. *)
Lemma sanitized_name_kept rt description :
  Forall (fun c => keep rt c = true) description ->
  sanitized_name rt description = replace_space (strip description) ++ u ".mp4".
Proof.
  intros H. unfold sanitized_name, stem. rewrite filter_all by exact H. reflexivity.
Qed.

(** C4, as the code has it: for every caption made of characters of
    [A-Za-z0-9 _-] the sanitizer returns the caption without its leading
    and trailing spaces, each remaining space replaced by an underscore,
    followed by [".mp4"]; when the caption neither starts nor ends with a
    space this is the caption itself with spaces replaced. *)
Theorem sanitized_name_ascii (rt : runtime) (description : str) :
  Forall (fun c => ascii_class c = true) description ->
  sanitized_name rt description
    = replace_space (strip_blanks description) ++ u ".mp4" /\
  (head description <> Some 0x20 -> last description <> Some 0x20 ->
   sanitized_name rt description = replace_space description ++ u ".mp4").
Proof.
  intros H.
  assert (E : sanitized_name rt description
              = replace_space (strip_blanks description) ++ u ".mp4").
  { rewrite sanitized_name_kept, (strip_ascii_class _ H); [reflexivity |].
    eapply Forall_impl; [exact H |]. intros c. apply ascii_class_keep. }
  split; [exact E |].
  intros Hh Hl. rewrite E, strip_blanks_id by assumption. reflexivity.
Qed.

Lemma sanitized_name_ascii_witness :
  Forall (fun c => ascii_class c = true) (u "My Trip 2024") /\
  sanitized_name example_runtime (u "My Trip 2024") = u "My_Trip_2024.mp4".
Proof.
  assert (H : Forall (fun c => ascii_class c = true) (u "My Trip 2024"))
    by (vm_compute; repeat constructor).
  split; [exact H |].
  destruct (sanitized_name_ascii example_runtime _ H) as [_ E].
  apply E; vm_compute; discriminate.
Defined.

(** C4 as stated fails: the caption [" a"] is made of a space and a
    letter, and its sanitized name is ["a.mp4"], not ["_a.mp4"]. *)
Lemma sanitized_name_identity_fails :
  ~ (forall (rt : runtime) (description : str),
       Forall (fun c => ascii_class c = true) description ->
       sanitized_name rt description = replace_space description ++ u ".mp4").
Proof.
  intros H.
  specialize (H example_runtime (u " a")).
  vm_compute in H. specialize (H ltac:(repeat constructor)). discriminate H.
Qed.

(** ** Temporary file paths *)

Lemma u_inj s1 s2 : u s1 = u s2 -> s1 = s2.
Proof.
  revert s2. induction s1 as [| a s1 IH]; intros [| b s2]; simpl; intros E;
    try discriminate; [reflexivity |].
  injection E as Eab E. f_equal; [| apply IH, E].
  rewrite <- (ascii_N_embedding a), <- (ascii_N_embedding b), Eab. reflexivity.
Qed.

Lemma str_int_inj n m : str_int n = str_int m -> n = m.
Proof.
  unfold str_int. intros E. apply u_inj in E.
  apply DecimalZ.to_int_inj.
  assert (Es : Some (Z.to_int n) = Some (Z.to_int m))
    by (rewrite <- !NilEmpty.isi, E; reflexivity).
  injection Es as Es. exact Es.
Qed.

Lemma digits_no_underscore d : ~ In 0x5F (u (NilEmpty.string_of_uint d)).
Proof.
  induction d; simpl; [tauto | ..]; intros [E | H]; try discriminate; auto.
Qed.

Lemma str_int_no_underscore n : ~ In 0x5F (str_int n).
Proof.
  unfold str_int. destruct (Z.to_int n) as [d | d]; simpl.
  - apply digits_no_underscore.
  - intros [E | H]; [discriminate | exact (digits_no_underscore d H)].
Qed.

(** Two strings cut at the first occurrence of a separator agree part by
    part. *)
Lemma app_pivot_inj {A} (x : A) (l1 l2 r1 r2 : list A) :
  ~ In x l1 -> ~ In x l2 -> l1 ++ x :: r1 = l2 ++ x :: r2 -> l1 = l2 /\ r1 = r2.
Proof.
  revert l2. induction l1 as [| a l1 IH]; intros [| b l2] H1 H2 E; simpl in *.
  - injection E as E. auto.
  - injection E as Ex E. subst b. tauto.
  - injection E as Ex E. subst a. tauto.
  - injection E as Eab E. subst b.
    destruct (IH l2) as [-> ->]; auto.
Qed.

Lemma path_join_relative a : exists pre, forall b,
  startswith sep b = false -> path_join a b = pre ++ b.
Proof.
  unfold path_join.
  destruct (match a with [] => true | _ => false end || endswith sep a) eqn:E.
  - exists a. intros b ->. reflexivity.
  - exists (a ++ [sep]). intros b ->. rewrite <- app_assoc. reflexivity.
Qed.

Lemma temp_video_path_inj rt user1 user2 unique1 unique2 :
  temp_video_path rt user1 unique1 = temp_video_path rt user2 unique2 ->
  user1 = user2 /\ unique1 = unique2.
Proof.
  unfold temp_video_path. destruct (path_join_relative (TEMP_DIR rt)) as [pre Hpre].
  rewrite !Hpre by reflexivity. intros E.
  apply app_inv_head in E. apply (app_inv_head (u "temp_")) in E.
  change (u "_" ++ ?x) with (0x5F :: x) in E.
  apply app_pivot_inj in E; try apply str_int_no_underscore.
  destruct E as [E1 E2]. split; [apply str_int_inj, E1 |].
  apply app_inv_tail in E2. exact E2.
Qed.

(** ** Cleanup *)

Arguments u _%_string : simpl never.

Lemma lookup_delete_paths_in (ps : list str) (m : gmap str file) (q : str) :
  In q ps -> delete_paths ps m !! q = None.
Proof.
  revert m. induction ps as [| p ps IH]; intros m; simpl; [tauto |].
  intros [-> | H]; [| apply IH, H].
  destruct (in_dec (fun a b : str => decide (a = b)) q ps) as [Hin | Hout]; [apply IH, Hin |].
  clear IH. revert m. induction ps as [| p ps IH]; intros m; simpl.
  - apply lookup_delete_eq.
  - rewrite delete_delete. apply IH. intros H. apply Hout. right. exact H.
Qed.

Lemma lookup_delete_paths_out (ps : list str) (m : gmap str file) (q : str) :
  ~ In q ps -> delete_paths ps m !! q = m !! q.
Proof.
  revert m. induction ps as [| p ps IH]; intros m Hout; simpl; [reflexivity |].
  rewrite IH by (intros H; apply Hout; right; exact H).
  apply lookup_delete_ne. intros ->. apply Hout. left. reflexivity.
Qed.

Lemma remove_if_exists_spec p st :
  remove_if_exists p st
  = (Returned tt, {| user_data := user_data st; fs := delete p (fs st);
                     outbox := outbox st |}).
Proof.
  unfold remove_if_exists, try_except, bind, os_path_exists, os_remove. simpl.
  destruct (fs st !! p) eqn:E; simpl; rewrite ?E; [reflexivity |].
  rewrite delete_id by exact E. destruct st; reflexivity.
Qed.

Lemma cleanup_loop_spec videos st :
  for_in videos (fun video => remove_if_exists (path video)) st
  = (Returned tt, {| user_data := user_data st;
                     fs := delete_paths (map path videos) (fs st);
                     outbox := outbox st |}).
Proof.
  revert st. induction videos as [| v videos IH]; intros st; simpl.
  - destruct st; reflexivity.
  - unfold bind. rewrite remove_if_exists_spec, IH. reflexivity.
Qed.

Lemma cleanup_files_spec videos zip_path st :
  cleanup_files videos zip_path st
  = (Returned tt, {| user_data := user_data st;
                     fs := delete zip_path (delete_paths (map path videos) (fs st));
                     outbox := outbox st |}).
Proof.
  unfold cleanup_files, bind. rewrite cleanup_loop_spec, remove_if_exists_spec.
  reflexivity.
Qed.

(** ** The archive builder *)

Lemma same_but_refl zp st : same_but zp st st.
Proof. repeat split. Qed.

Lemma same_but_trans zp st st1 st2 :
  same_but zp st st1 -> same_but zp st1 st2 -> same_but zp st st2.
Proof.
  intros (Hu & Ho & Hf) (Hu' & Ho' & Hf'). repeat split; try congruence.
  intros p Hp. rewrite Hf', Hf by exact Hp. reflexivity.
Qed.

Lemma write_file_same_but zp f st : same_but zp st (snd (write_file zp f st)).
Proof.
  repeat split. intros p Hp. simpl. apply lookup_insert_ne. congruence.
Qed.

Lemma zipf_write_frame ft zp v st : same_but zp st (snd (zipf_write ft zp v st)).
Proof.
  unfold zipf_write. destruct (fs st !! path v); [| apply same_but_refl].
  destruct (stored_arcname (name v)); [| apply same_but_refl].
  destruct (write_fault ft _ v); [apply same_but_refl | apply write_file_same_but].
Qed.

Lemma for_in_write_frame ft zp videos st :
  same_but zp st (snd (for_in videos (zipf_write ft zp) st)).
Proof.
  revert st. induction videos as [| v videos IH]; intros st; simpl.
  - apply same_but_refl.
  - unfold bind. pose proof (zipf_write_frame ft zp v st) as H.
    destruct (zipf_write ft zp v st) as [[[] | e] st1]; simpl in *; [| exact H].
    eapply same_but_trans; [exact H | apply IH].
Qed.

Lemma with_close_frame {A} zp (body : M A) ft st :
  same_but zp st (snd (body st)) ->
  same_but zp st (snd (with_close body (zipf_close ft) st)).
Proof.
  unfold with_close, zipf_close. destruct (body st) as [r st1]. cbn [snd].
  destruct (close_fault ft); intros H; exact H.
Qed.

Lemma write_archive_frame ft zp st :
  same_but zp st (snd (write_archive ft zp st)).
Proof.
  unfold write_archive, ZipFile, bind.
  destruct (open_fault ft); [apply same_but_refl |].
  pose proof (write_file_same_but zp (Zip []) st) as H0.
  destruct (write_file zp (Zip []) st) as [[[] | e] st0]; cbn [snd] in H0 |- *;
    [| exact H0].
  eapply same_but_trans; [exact H0 |]. apply with_close_frame.
  unfold get_videos. destruct (user_data st0); [| apply same_but_refl].
  apply for_in_write_frame.
Qed.

Lemma cleanup_same_but (zp : str) (ps : list str) (m m1 : gmap str file) :
  (forall p : str, p <> zp -> m1 !! p = m !! p) ->
  delete zp (delete_paths ps m1) = delete zp (delete_paths ps m).
Proof.
  intros H. apply map_eq. intros q.
  destruct (decide (zp = q)) as [<- | Hne]; [rewrite !lookup_delete_eq; reflexivity |].
  rewrite !lookup_delete_ne by exact Hne.
  destruct (in_dec (fun a b : str => decide (a = b)) q ps) as [Hin | Hout].
  - rewrite !lookup_delete_paths_in by exact Hin. reflexivity.
  - rewrite !lookup_delete_paths_out by exact Hout. apply H. congruence.
Qed.

(** What the [try] block of [create_zip] does from a state that has a
    collection: either it raises, having touched nothing but the archive
    file, or it delivers one document and cleans up. *)
Lemma build_and_send_cases ft zp zf videos st :
  user_data st = Some videos ->
  (exists e st1, build_and_send ft zp zf st = (Raised e, st1) /\ same_but zp st st1)
  \/ (exists doc, build_and_send ft zp zf st
       = (Returned tt,
          {| user_data := Some [];
             fs := delete zp (delete_paths (map path videos) (fs st));
             outbox := outbox st ++ [reply_document doc zip_caption zf] |})).
Proof.
  intros Hud. unfold build_and_send, bind.
  pose proof (write_archive_frame ft zp st) as Hfr.
  destruct (write_archive ft zp st) as [[[] | e] st1]; simpl in Hfr;
    [| left; eauto].
  unfold open_rb. destruct (fs st1 !! zp) as [doc |]; [| left; eauto].
  unfold send_document. destruct (send_fault ft) as [e |]; [left; eauto |].
  right. exists doc. destruct Hfr as (Hu & Ho & Hf).
  unfold send, get_videos. simpl. rewrite Hu, Hud.
  rewrite cleanup_files_spec. unfold set_videos. simpl.
  rewrite Ho, (cleanup_same_but zp _ (fs st) (fs st1) Hf). reflexivity.
Qed.

Lemma create_zip_nonempty rt ft user_id st v vs :
  user_data st = Some (v :: vs) ->
  create_zip rt ft user_id st
  = try_except
      (build_and_send ft (zip_path_of rt user_id) (fst (splitext (name v)) ++ u ".zip"))
      (report_and_cleanup rt ft (zip_path_of rt user_id)) st.
Proof.
  intros H. destruct st as [ud m out]. simpl in H. subst ud. reflexivity.
Qed.

Lemma report_and_cleanup_spec rt ft zp e videos st :
  error_reply_fault ft = None ->
  user_data st = Some videos ->
  report_and_cleanup rt ft zp e st
  = (Returned tt,
     {| user_data := Some [];
        fs := delete zp (delete_paths (map path videos) (fs st));
        outbox := outbox st ++ [reply_text (error_text rt e)] |}).
Proof.
  intros Hr H. unfold report_and_cleanup, send_error_reply, bind. rewrite Hr.
  unfold send, get_videos. simpl. rewrite H.
  rewrite cleanup_files_spec. reflexivity.
Qed.

(** When the error reply fails, its exception leaves the [except] block
    at once: nothing is sent, removed or reset. *)
Lemma report_and_cleanup_reply_fails rt ft zp e e' st :
  error_reply_fault ft = Some e' ->
  report_and_cleanup rt ft zp e st = (Raised e', st).
Proof.
  intros Hr. unfold report_and_cleanup, send_error_reply, bind. rewrite Hr.
  reflexivity.
Qed.

(** When the build goes through, or the error reply about its failure
    does, [create_zip] returns normally from a non-empty collection with
    the collection reset and the collected files and the archive
    removed. *)
Lemma create_zip_end_state rt ft user_id st v vs :
  user_data st = Some (v :: vs) ->
  error_reply_fault ft = None \/
  result (build_and_send ft (zip_path_of rt user_id)
            (fst (splitext (name v)) ++ u ".zip")) st = Returned tt ->
  result (create_zip rt ft user_id) st = Returned tt /\
  user_data (exec (create_zip rt ft user_id) st) = Some [] /\
  fs (exec (create_zip rt ft user_id) st)
  = delete (zip_path_of rt user_id) (delete_paths (map path (v :: vs)) (fs st)).
Proof.
  intros H Hok. unfold result, exec in *. rewrite (create_zip_nonempty _ _ _ _ _ _ H).
  unfold try_except.
  destruct (build_and_send_cases ft (zip_path_of rt user_id)
              (fst (splitext (name v)) ++ u ".zip") _ st H)
    as [(e & st1 & E & Hu & Ho & Hf) | (doc & E)]; rewrite E in Hok |- *.
  - destruct Hok as [Hr | Hok]; [| discriminate Hok].
    rewrite (report_and_cleanup_spec _ _ _ _ (v :: vs)) by congruence.
    cbn [fst snd user_data fs outbox].
    repeat split. apply cleanup_same_but, Hf.
  - cbn [fst snd user_data fs outbox]. repeat split.
Qed.

(** C1, as the code has it: when the [try] block of [create_zip] raises
    an exception [e] (opening the archive, writing an entry, a missing
    source file, closing, delivering the document) and the error reply
    is delivered, [create_zip] itself returns normally, the user gets
    that one reply, which ends with the text of [e], the collection is
    the empty list, no path of a collected record and no archive path of
    the session has a file in the temporary directory, every other file
    (one that an earlier [/start] left behind, say) is as it was, and
    collection and directory are those any successful build from the
    same state leaves. *)
Theorem create_zip_failure_cleans_up (rt : runtime) (ft : faults) (user_id : Z)
    (st : state) (v : pending_video) (vs : list pending_video) (e : exn) :
  user_data st = Some (v :: vs) ->
  result (build_and_send ft (zip_path_of rt user_id)
            (fst (splitext (name v)) ++ u ".zip")) st = Raised e ->
  error_reply_fault ft = None ->
  let st' := exec (create_zip rt ft user_id) st in
  result (create_zip rt ft user_id) st = Returned tt /\
  outbox st' = outbox st ++
    [reply_text (warning_sign ++ u " Error creating zip file: " ++ exn_str rt e)] /\
  user_data st' = Some [] /\
  (forall w, In w (v :: vs) -> fs st' !! path w = None) /\
  fs st' !! zip_path_of rt user_id = None /\
  (forall p : str,
     p <> zip_path_of rt user_id -> ~ In p (map path (v :: vs)) ->
     fs st' !! p = fs st !! p) /\
  (forall ft_ok,
     result (build_and_send ft_ok (zip_path_of rt user_id)
               (fst (splitext (name v)) ++ u ".zip")) st = Returned tt ->
     user_data (exec (create_zip rt ft_ok user_id) st) = user_data st' /\
     fs (exec (create_zip rt ft_ok user_id) st) = fs st').
Proof.
  intros H Hraise Hreply st'.
  destruct (create_zip_end_state rt ft user_id st v vs H (or_introl Hreply))
    as (Hres & Hud & Hfs).
  fold st' in Hud, Hfs.
  split; [exact Hres |]. split.
  - subst st'. unfold exec. rewrite (create_zip_nonempty _ _ _ _ _ _ H).
    unfold try_except. unfold result in Hraise.
    destruct (build_and_send_cases ft (zip_path_of rt user_id)
                (fst (splitext (name v)) ++ u ".zip") _ st H)
      as [(e1 & st1 & E & Hu & Ho & Hf) | (doc & E)];
      rewrite E in Hraise |- *; simpl in Hraise; [| discriminate].
    injection Hraise as ->.
    rewrite (report_and_cleanup_spec _ _ _ _ (v :: vs)) by congruence.
    cbn [fst snd user_data fs outbox]. rewrite Ho. reflexivity.
  - split; [exact Hud |]. split; [| split; [| split]].
    + intros w Hw. rewrite Hfs.
      destruct (decide (zip_path_of rt user_id = path w)) as [-> | Hne];
        [apply lookup_delete_eq |].
      rewrite lookup_delete_ne by exact Hne.
      apply lookup_delete_paths_in, in_map, Hw.
    + rewrite Hfs. apply lookup_delete_eq.
    + intros p Hp Hout. rewrite Hfs, lookup_delete_ne by congruence.
      apply lookup_delete_paths_out, Hout.
    + intros ft_ok Hok.
      destruct (create_zip_end_state rt ft_ok user_id st v vs H (or_intror Hok))
        as (_ & Hud' & Hfs').
      rewrite Hud', Hfs', Hud, Hfs. split; reflexivity.
Qed.

(** C6: on an empty collection, absent or the empty list, [create_zip]
    replies with the warning and changes neither the temporary directory
    nor [user_data]; the collection is still empty. *)
Theorem create_zip_empty_collection (rt : runtime) (ft : faults) (user_id : Z)
    (st : state) :
  collection st = [] ->
  let st' := exec (create_zip rt ft user_id) st in
  result (create_zip rt ft user_id) st = Returned tt /\
  outbox st' = outbox st ++
    [reply_text (warning_sign ++ u " No videos collected yet!")] /\
  fs st' = fs st /\
  user_data st' = user_data st /\
  collection st' = [].
Proof.
  unfold collection, result, exec, create_zip, nothing_collected, bind,
    has_videos, get_videos.
  destruct st as [[[| v vs] |] m out]; simpl; intros H; try discriminate;
    repeat split.
Qed.

Lemma create_zip_failure_cleans_up_witness :
  user_data missing_source_state
  = Some [{| path := u "/tmp/video_bot_x/temp_7_a.mp4"; name := u "a.mp4" |}] /\
  result (build_and_send no_faults (zip_path_of example_runtime 7)
            (fst (splitext (u "a.mp4")) ++ u ".zip")) missing_source_state
  = Raised (FileNotFoundError (u "/tmp/video_bot_x/temp_7_a.mp4")) /\
  error_reply_fault no_faults = None /\
  outbox (exec (create_zip example_runtime no_faults 7) missing_source_state)
  = [reply_text (warning_sign ++ u " Error creating zip file: "
                 ++ u "[Errno 2] No such file or directory: "
                 ++ u "'/tmp/video_bot_x/temp_7_a.mp4'")].
Proof.
  assert (H1 : user_data missing_source_state
               = Some [{| path := u "/tmp/video_bot_x/temp_7_a.mp4";
                          name := u "a.mp4" |}]) by reflexivity.
  assert (H2 : result (build_and_send no_faults (zip_path_of example_runtime 7)
                         (fst (splitext (u "a.mp4")) ++ u ".zip"))
                 missing_source_state
               = Raised (FileNotFoundError (u "/tmp/video_bot_x/temp_7_a.mp4")))
    by (vm_compute; reflexivity).
  split; [exact H1 |]. split; [exact H2 |]. split; [reflexivity |].
  exact (proj1 (proj2 (create_zip_failure_cleans_up example_runtime no_faults 7
                         missing_source_state _ _ _ H1 H2 eq_refl))).
Defined.

(** C1 as stated fails in two ways. When the error reply cannot be sent
    either (the delivery timed out, and so does the reply), the
    exception of the reply leaves [create_zip]: nothing is sent, the
    collection keeps its record, and the record's file and the archive
    stay in the temporary directory. And a file that an earlier [/start]
    left behind survives a failed (and a successful) build, whose
    cleanup goes by the collection. *)
Lemma create_zip_failed_build_leaves_files :
  let timed_out := OtherError (u "Timed out") in
  let clip := video_message (u "AgAD") (Some (u "clip")) in
  let temp_clip := u "/tmp/video_bot_x/temp_7_AgAD.mp4" in
  let st1 := exec (handle_video example_runtime 7 clip) fresh_state in
  (let ft := {| open_fault := None; write_fault := fun _ _ => None;
                close_fault := None; send_fault := Some timed_out;
                error_reply_fault := Some timed_out |} in
   let st2 := exec (create_zip example_runtime ft 7) st1 in
   result (create_zip example_runtime ft 7) st1 = Raised timed_out /\
   outbox st2 = outbox st1 /\
   collection st2 = [{| path := temp_clip; name := u "clip.mp4" |}] /\
   fs st2 !! temp_clip = Some (Blob []) /\
   fs st2 !! zip_path_of example_runtime 7
   = Some (Zip [Member (u "clip.mp4") (Blob [])])) /\
  (let ft := {| open_fault := None; write_fault := fun _ _ => None;
                close_fault := None; send_fault := Some timed_out;
                error_reply_fault := None |} in
   let st2 := exec (handle_video example_runtime 7
                      (video_message (u "AgAE") (Some (u "next"))))
                   (exec start st1) in
   let st3 := exec (create_zip example_runtime ft 7) st2 in
   result (create_zip example_runtime ft 7) st2 = Returned tt /\
   collection st3 = [] /\
   fs st3 !! temp_clip = Some (Blob [])).
Proof. vm_compute. repeat split. Qed.

(** A delivery that fails after the archive was written: the user is
    told, and record file and archive are gone. *)
Example create_zip_send_failure_run :
  let ft := {| open_fault := None; write_fault := fun _ _ => None;
               close_fault := None;
               send_fault := Some (OtherError (u "Timed out"));
               error_reply_fault := None |} in
  let st1 := exec (handle_video example_runtime 7
                     (video_message (u "AgAD") (Some (u "clip")))) fresh_state in
  let st2 := exec (create_zip example_runtime ft 7) st1 in
  fs st1 !! u "/tmp/video_bot_x/temp_7_AgAD.mp4" = Some (Blob []) /\
  outbox st2 = outbox st1 ++
    [reply_text (warning_sign ++ u " Error creating zip file: Timed out")] /\
  user_data st2 = Some [] /\
  fs st2 = ∅.
Proof. vm_compute. repeat split. Qed.

Lemma create_zip_empty_collection_witness :
  collection fresh_state = [] /\
  fs (exec (create_zip example_runtime no_faults 7) fresh_state) = fs fresh_state.
Proof.
  split; [reflexivity |].
  exact (proj1 (proj2 (proj2 (create_zip_empty_collection example_runtime no_faults 7
                                fresh_state eq_refl)))).
Defined.

(** ** The ingest handler and the start command *)

(** The three ways through [handle_video]. *)
Lemma handle_video_no_attachment rt user_id msg st :
  py_or (video msg) (document msg) = None ->
  handle_video rt user_id msg st
  = (Returned tt, {| user_data := Some (collection st); fs := fs st;
                     outbox := outbox st ++ [reply_text no_video_text] |}).
Proof.
  intros H. unfold handle_video. rewrite H.
  destruct st as [[vs |] m out]; reflexivity.
Qed.

Lemma handle_video_no_caption rt user_id msg st a :
  py_or (video msg) (document msg) = Some a ->
  caption msg = None \/ caption msg = Some [] ->
  handle_video rt user_id msg st
  = (Returned tt, {| user_data := Some (collection st); fs := fs st;
                     outbox := outbox st ++ [reply_text no_caption_text] |}).
Proof.
  intros H Hc. unfold handle_video. rewrite H.
  destruct st as [[vs |] m out]; destruct Hc as [-> | ->]; reflexivity.
Qed.

Lemma handle_video_accepts rt user_id msg st a description :
  py_or (video msg) (document msg) = Some a ->
  caption msg = Some description -> description <> [] ->
  handle_video rt user_id msg st
  = (Returned tt,
     {| user_data :=
          Some (collection st ++
                [{| path := temp_video_path rt user_id (file_unique_id a);
                    name := sanitized_name rt description |}]);
        fs := <[temp_video_path rt user_id (file_unique_id a)
                := Blob (telegram_file rt (file_id a))]> (fs st);
        outbox := outbox st ++
          [reply_text (saved_text (sanitized_name rt description)
                         (length (collection st ++
                            [{| path := temp_video_path rt user_id (file_unique_id a);
                                name := sanitized_name rt description |}])))] |}).
Proof.
  intros H Hc Hd. unfold handle_video. rewrite H, Hc.
  destruct description as [| c d]; [contradiction |].
  destruct st as [[vs |] m out]; reflexivity.
Qed.

(** C5: ingest operations of two sessions with different user identifiers
    build different temporary file paths, whatever the attachments'
    unique identifiers are; so handling a message of one session leaves
    the file under any temporary path of the other session as it was. *)
Theorem temp_video_path_sessions_disjoint (rt : runtime)
    (user1 user2 : Z) (unique1 unique2 : str) :
  user1 <> user2 ->
  temp_video_path rt user1 unique1 <> temp_video_path rt user2 unique2 /\
  forall (msg : message) (st : state),
    fs (exec (handle_video rt user2 msg) st) !! temp_video_path rt user1 unique1
    = fs st !! temp_video_path rt user1 unique1.
Proof.
  intros Hne. split.
  - intros E. apply temp_video_path_inj in E. tauto.
  - intros msg st. unfold exec.
    destruct (py_or (video msg) (document msg)) as [a |] eqn:Ha.
    + destruct (caption msg) as [[| c d] |] eqn:Hc.
      * rewrite (handle_video_no_caption _ _ _ _ a) by auto. reflexivity.
      * rewrite (handle_video_accepts _ _ _ _ a (c :: d)) by (auto; discriminate).
        cbn [snd fs]. apply lookup_insert_ne.
        intros E. apply temp_video_path_inj in E. destruct E as [E _].
        apply Hne. symmetry. exact E.
      * rewrite (handle_video_no_caption _ _ _ _ a) by auto. reflexivity.
    + rewrite handle_video_no_attachment by exact Ha. reflexivity.
Qed.

Lemma temp_video_path_sessions_disjoint_witness :
  temp_video_path example_runtime 1 (u "2_AgAD") <>
  temp_video_path example_runtime 12 (u "AgAD").
Proof.
  apply (temp_video_path_sessions_disjoint example_runtime 1 12). lia.
Defined.



(** C9: on a session whose key ['videos'] was never set, [handle_video]
    does not raise, leaves the key set, and does exactly what it does on
    the same session with the collection initialised to the empty list. *)
Theorem handle_video_uninitialised (rt : runtime) (user_id : Z) (msg : message)
    (files : gmap str file) (sent : list event) :
  handle_video rt user_id msg {| user_data := None; fs := files; outbox := sent |}
  = handle_video rt user_id msg {| user_data := Some []; fs := files; outbox := sent |}
  /\ result (handle_video rt user_id msg)
       {| user_data := None; fs := files; outbox := sent |} = Returned tt
  /\ user_data (exec (handle_video rt user_id msg)
       {| user_data := None; fs := files; outbox := sent |}) <> None.
Proof.
  unfold result, exec, handle_video.
  destruct (py_or (video msg) (document msg)) as [a |].
  - destruct (caption msg) as [[| c d] |]; repeat split; discriminate.
  - repeat split; discriminate.
Qed.

(** C10: [start] replies with the instructions and sets the collection to
    the empty list; the temporary directory is not touched, so the file
    of every record collected before is still where it was. *)
Theorem start_keeps_files (st : state) :
  let st' := exec start st in
  result start st = Returned tt /\
  user_data st' = Some [] /\
  fs st' = fs st /\
  Forall (fun v => fs st' !! path v = fs st !! path v) (collection st) /\
  outbox st' = outbox st ++ [reply_text start_text].
Proof.
  cbn. repeat split. apply Forall_forall. reflexivity.
Qed.

Example start_orphans_the_file :
  let st1 := exec (handle_video example_runtime 7
                     (video_message (u "AgAD") (Some (u "clip")))) fresh_state in
  collection (exec start st1) = [] /\
  fs (exec start st1) !! u "/tmp/video_bot_x/temp_7_AgAD.mp4" = Some (Blob []).
Proof. vm_compute. split; reflexivity. Qed.

(** ** Entry names *)

Lemma str_eqb_length a b : length a <> length b -> str_eqb a b = false.
Proof.
  revert b. induction a as [| x a IH]; intros [| y b] H; cbn [str_eqb];
    try reflexivity; [contradiction |].
  rewrite IH; [apply andb_false_r |]. cbn [length] in H. lia.
Qed.

Lemma split_sep_plain s : ~ In sep s -> split_sep s = [s].
Proof.
  induction s as [| c s IH]; intros H; cbn [split_sep]; [reflexivity |].
  destruct (N.eqb_spec c sep) as [-> | _]; [exfalso; apply H; left; reflexivity |].
  rewrite IH by (intros Hin; apply H; right; exact Hin). reflexivity.
Qed.

Lemma truncate_nul_plain s : ~ In 0 s -> truncate_nul s = s.
Proof.
  induction s as [| c s IH]; intros H; cbn [truncate_nul]; [reflexivity |].
  destruct (N.eqb_spec c 0) as [-> | _]; [exfalso; apply H; left; reflexivity |].
  rewrite IH by (intros Hin; apply H; right; exact Hin). reflexivity.
Qed.

(** A name of three or more characters, none of them a slash or NUL,
    is stored as it is. *)
Lemma stored_arcname_plain s :
  (3 <= length s)%nat -> ~ In sep s -> ~ In 0 s -> stored_arcname s = Some s.
Proof.
  intros Hlen Hsep Hnul.
  assert (Hstart : startswith sep s = false).
  { destruct s as [| c s']; [reflexivity |]. cbn [startswith].
    apply N.eqb_neq. intros ->. apply Hsep. left. reflexivity. }
  assert (Hnorm : normpath s = s).
  { unfold normpath, initial_slashes. rewrite Hstart, (split_sep_plain s Hsep).
    cbn [fold_left repeat app]. unfold normpath_step.
    rewrite (str_eqb_length s []), (str_eqb_length s (u ".")),
      (str_eqb_length s (u ".."))
      by (change (length (u "..")) with 2%nat;
          change (length (u ".")) with 1%nat; cbn [length]; lia).
    cbn [orb negb app join_sep]. destruct s; [cbn [length] in Hlen; lia | reflexivity]. }
  unfold stored_arcname. rewrite Hnorm.
  destruct s as [| c s']; [cbn [length] in Hlen; lia |].
  cbn [dropwhile]. cbn [startswith] in Hstart. rewrite Hstart.
  rewrite truncate_nul_plain by exact Hnul. reflexivity.
Qed.

Lemma stored_arcname_sanitized rt description :
  stored_arcname (sanitized_name rt description) = Some (sanitized_name rt description).
Proof.
  unfold sanitized_name. pose proof (stem_charset rt description) as Hall.
  rewrite Forall_forall in Hall. apply stored_arcname_plain.
  - rewrite length_app. change (length (u ".mp4")) with 4%nat. lia.
  - intros Hin. apply in_app_or in Hin. destruct Hin as [Hin | Hin].
    + apply list_elem_of_In, Hall in Hin.
      destruct Hin as [[H | [H | H]] _]; discriminate H.
    + vm_compute in Hin. intuition discriminate.
  - intros Hin. apply in_app_or in Hin. destruct Hin as [Hin | Hin].
    + apply list_elem_of_In, Hall in Hin.
      destruct Hin as [[H | [H | H]] _]; discriminate H.
    + vm_compute in Hin. intuition discriminate.
Qed.

(** ** Ingest, then build *)

Lemma accepted_inv msg a description :
  accepted msg = Some (a, description) ->
  py_or (video msg) (document msg) = Some a /\
  caption msg = Some description /\ description <> [].
Proof.
  unfold accepted. destruct (py_or (video msg) (document msg)) as [b |];
    [| discriminate].
  destruct (caption msg) as [[| c d] |]; try discriminate.
  intros [= -> <-]. repeat split. discriminate.
Qed.

Lemma is_Some_lookup_insert (m : gmap str file) (p q : str) (f : file) :
  is_Some (m !! q) -> is_Some (<[p := f]> m !! q).
Proof.
  intros H. destruct (decide (p = q)) as [-> | Hne].
  - rewrite lookup_insert_eq. eauto.
  - rewrite lookup_insert_ne by exact Hne. exact H.
Qed.

Lemma ingest_spec rt user_id msgs : forall items st,
  map accepted msgs = map Some items ->
  sources_present st ->
  exists st1,
    for_in msgs (handle_video rt user_id) st = (Returned tt, st1) /\
    collection st1 = collection st ++ map (record_of rt user_id) items /\
    (user_data st <> None \/ msgs <> [] -> user_data st1 = Some (collection st1)) /\
    sources_present st1.
Proof.
  induction msgs as [| msg msgs IH]; intros [| [a d] items] st Hacc Hsrc;
    try discriminate.
  - exists st. cbn [for_in map]. rewrite app_nil_r. repeat split; trivial.
    intros [H | H]; [| contradiction].
    unfold collection. destruct (user_data st); [reflexivity | contradiction].
  - cbn [map] in Hacc. injection Hacc as Hmsg Hacc.
    apply accepted_inv in Hmsg. destruct Hmsg as (Ha & Hc & Hd).
    cbn [for_in]. unfold bind.
    rewrite (handle_video_accepts rt user_id msg st a d Ha Hc Hd).
    match goal with |- context [for_in msgs _ ?s] => set (st' := s) end.
    destruct (IH items st' Hacc) as (st1 & E & Hcol & Hud & Hsrc1).
    + unfold sources_present, st', collection. cbn [user_data fs].
      apply Forall_app. split.
      * eapply Forall_impl; [exact Hsrc |]. intros v. apply is_Some_lookup_insert.
      * constructor; [| constructor]. cbn [path]. rewrite lookup_insert_eq. eauto.
    + exists st1. rewrite E. split; [reflexivity |]. split; [| split; trivial].
      * rewrite Hcol. unfold st', collection at 1. cbn [user_data map].
        rewrite <- app_assoc. reflexivity.
      * intros _. apply Hud. left. discriminate.
Qed.

Lemma write_loop_success zp vs : forall st es0,
  fs st !! zp = Some (Zip es0) ->
  Forall (fun v => is_Some (fs st !! path v)) vs ->
  names_plain vs ->
  exists entries st1,
    for_in vs (zipf_write no_faults zp) st = (Returned tt, st1) /\
    same_but zp st st1 /\
    fs st1 !! zp = Some (Zip (es0 ++ entries)) /\
    map arcname_of entries = map name vs.
Proof.
  induction vs as [| v vs IH]; intros st es0 Hz Hall Hplain.
  - exists [], st. rewrite app_nil_r. repeat split; trivial.
  - inversion Hall as [| ? ? [f Hf] Hrest]; subst.
    inversion Hplain as [| ? ? Hv Hplain']; subst.
    assert (E : zipf_write no_faults zp v st
                = write_file zp (Zip (es0 ++ [Member (name v) f])) st).
    { unfold zipf_write. rewrite Hf, Hv, Hz. reflexivity. }
    cbn [for_in]. unfold bind. rewrite E. unfold write_file at 1.
    match goal with |- context [for_in vs _ ?s] => set (st' := s) end.
    destruct (IH st' (es0 ++ [Member (name v) f])) as (entries & st1 & E1 & Hsb & Hz1 & Hn).
    + apply lookup_insert_eq.
    + eapply Forall_impl; [exact Hrest |]. intros w. apply is_Some_lookup_insert.
    + exact Hplain'.
    + exists (Member (name v) f :: entries), st1. rewrite E1.
      split; [reflexivity |]. split; [| split].
      * eapply same_but_trans; [| exact Hsb].
        apply (write_file_same_but zp (Zip (es0 ++ [Member (name v) f])) st).
      * rewrite Hz1, <- app_assoc. reflexivity.
      * cbn [map arcname_of]. f_equal. exact Hn.
Qed.

(** A build without failures from a collection whose files are all
    there and whose names are plain: one document is delivered, an
    archive with one entry per record, in order, under the record's
    name; its filename comes from the first record through [splitext]. *)
Lemma create_zip_success rt user_id st v vs :
  user_data st = Some (v :: vs) ->
  sources_present st ->
  names_plain (v :: vs) ->
  exists entries,
    outbox (exec (create_zip rt no_faults user_id) st)
    = outbox st ++ [reply_document (Zip entries) zip_caption
                      (fst (splitext (name v)) ++ u ".zip")] /\
    map arcname_of entries = map name (v :: vs).
Proof.
  intros Hud Hsrc Hplain. unfold exec.
  rewrite (create_zip_nonempty _ _ _ _ _ _ Hud). unfold try_except.
  set (zp := zip_path_of rt user_id).
  unfold sources_present, collection in Hsrc. rewrite Hud in Hsrc.
  destruct (write_loop_success zp (v :: vs)
              {| user_data := user_data st; fs := <[zp := Zip []]> (fs st);
                 outbox := outbox st |} [])
    as (entries & st1 & E1 & (Hu & Ho & Hf) & Hz & Hn).
  { apply lookup_insert_eq. }
  { eapply Forall_impl; [exact Hsrc |]. intros w. apply is_Some_lookup_insert. }
  { exact Hplain. }
  exists entries. split; [| exact Hn].
  assert (Ew : write_archive no_faults zp st = (Returned tt, st1)).
  { unfold write_archive, ZipFile, bind, with_close, zipf_close.
    cbn [open_fault close_fault no_faults].
    unfold write_file at 1, get_videos. cbn [user_data]. rewrite Hud.
    rewrite Hud in E1. rewrite E1. reflexivity. }
  unfold build_and_send, bind. rewrite Ew. unfold open_rb. rewrite Hz.
  unfold send_document. cbn [send_fault no_faults].
  unfold send at 1, get_videos. cbn [user_data]. cbn [user_data] in Hu.
  rewrite Hu, Hud, cleanup_files_spec.
  unfold set_videos. cbn [snd outbox]. rewrite Ho. reflexivity.
Qed.

(** C2, as the code has it: for every N >= 1, handling N messages that
    each carry an attachment and a non-empty caption, starting from an
    empty collection, and then running [create_zip] with no failure of
    the environment delivers one archive with exactly N entries, the
    i-th named by the sanitized i-th caption (whether or not the
    captions, or their sanitized forms, are distinct: a repeated name
    gives a further entry); afterwards the collection is empty and
    neither the N temporary files nor the session's archive file are
    left. *)
Theorem ingest_then_create_zip (rt : runtime) (user_id : Z)
    (msgs : list message) (items : list (attachment * str)) (st : state) :
  collection st = [] ->
  msgs <> [] ->
  map accepted msgs = map Some items ->
  let st1 := exec (for_in msgs (handle_video rt user_id)) st in
  let st2 := exec (create_zip rt no_faults user_id) st1 in
  exists entries filename,
    outbox st2 = outbox st1 ++ [reply_document (Zip entries) zip_caption filename] /\
    length entries = length msgs /\
    map arcname_of entries = map (fun item => sanitized_name rt (snd item)) items /\
    length (collection st2) = 0%nat /\
    Forall (fun item =>
              fs st2 !! temp_video_path rt user_id (file_unique_id (fst item)) = None)
           items /\
    fs st2 !! zip_path_of rt user_id = None.
Proof.
  intros Hempty Hne Hacc st1 st2.
  destruct (ingest_spec rt user_id msgs items st Hacc) as (st1' & E & Hcol & Hud & Hsrc).
  { unfold sources_present. rewrite Hempty. constructor. }
  assert (Est1 : st1 = st1') by (unfold st1, exec; rewrite E; reflexivity).
  clearbody st1. subst st1'. rewrite Hempty in Hcol. cbn [app] in Hcol.
  specialize (Hud (or_intror Hne)). rewrite Hcol in Hud.
  assert (Hlen : length msgs = length items).
  { rewrite <- (length_map accepted msgs), Hacc. apply length_map. }
  destruct items as [| item items].
  { destruct msgs; [contradiction | discriminate]. }
  cbn [map] in Hud.
  assert (Hplain : names_plain (map (record_of rt user_id) (item :: items))).
  { apply Forall_forall. intros w Hw. apply list_elem_of_In, in_map_iff in Hw.
    destruct Hw as (it & <- & _). apply stored_arcname_sanitized. }
  destruct (create_zip_success rt user_id st1 _ _ Hud Hsrc Hplain)
    as (entries & Hout & Hn).
  destruct (create_zip_end_state rt no_faults user_id st1 _ _ Hud (or_introl eq_refl))
    as (_ & Hud2 & Hfs).
  fold st2 in Hout, Hud2, Hfs.
  exists entries, (fst (splitext (name (record_of rt user_id item))) ++ u ".zip").
  assert (Hnames : map arcname_of entries
                   = map (fun it => sanitized_name rt (snd it)) (item :: items)).
  { rewrite Hn. change (record_of rt user_id item :: map (record_of rt user_id) items)
      with (map (record_of rt user_id) (item :: items)).
    rewrite map_map. reflexivity. }
  split; [exact Hout |]. split; [| split; [exact Hnames |]].
  - rewrite Hlen, <- (length_map arcname_of entries), Hnames. apply length_map.
  - split; [unfold collection; rewrite Hud2; reflexivity |]. split.
    + apply Forall_forall. intros it Hit. rewrite Hfs.
      set (p := temp_video_path rt user_id (file_unique_id (fst it))).
      destruct (decide (zip_path_of rt user_id = p)) as [<- | Hp];
        [apply lookup_delete_eq |].
      rewrite lookup_delete_ne by exact Hp. apply lookup_delete_paths_in.
      change (record_of rt user_id item :: map (record_of rt user_id) items)
        with (map (record_of rt user_id) (item :: items)).
      rewrite map_map. apply in_map_iff. exists it. split; [reflexivity |].
      apply list_elem_of_In, Hit.
    + rewrite Hfs. apply lookup_delete_eq.
Qed.

Lemma ingest_then_create_zip_witness :
  let msgs := [video_message (u "AgAD") (Some (u "a!"));
               video_message (u "AgAE") (Some (u "a?"))] in
  let st1 := exec (for_in msgs (handle_video example_runtime 7)) fresh_state in
  let st2 := exec (create_zip example_runtime no_faults 7) st1 in
  exists entries filename,
    outbox st2 = outbox st1 ++ [reply_document (Zip entries) zip_caption filename] /\
    length entries = 2%nat /\
    map arcname_of entries = [u "a.mp4"; u "a.mp4"] /\
    length (collection st2) = 0%nat /\
    Forall (fun item =>
              fs st2 !! temp_video_path example_runtime 7 (file_unique_id (fst item))
              = None)
           [({| file_id := u "id_AgAD"; file_unique_id := u "AgAD" |}, u "a!");
            ({| file_id := u "id_AgAE"; file_unique_id := u "AgAE" |}, u "a?")] /\
    fs st2 !! zip_path_of example_runtime 7 = None.
Proof.
  exact (ingest_then_create_zip example_runtime 7
           [video_message (u "AgAD") (Some (u "a!"));
            video_message (u "AgAE") (Some (u "a?"))]
           [({| file_id := u "id_AgAD"; file_unique_id := u "AgAD" |}, u "a!");
            ({| file_id := u "id_AgAE"; file_unique_id := u "AgAE" |}, u "a?")]
           fresh_state eq_refl ltac:(discriminate) eq_refl).
Defined.

(** C2 as stated fails at N = 0: with nothing ingested, [create_zip]
    replies with the warning and delivers no archive at all. *)
Lemma create_zip_after_no_ingest_sends_no_archive :
  ~ (forall (msgs : list message) (items : list (attachment * str)),
       map accepted msgs = map Some items ->
       NoDup (map snd items) ->
       let st1 := exec (for_in msgs (handle_video example_runtime 7)) fresh_state in
       let st2 := exec (create_zip example_runtime no_faults 7) st1 in
       exists entries filename,
         outbox st2 = outbox st1 ++ [reply_document (Zip entries) zip_caption filename] /\
         length entries = length msgs).
Proof.
  intros H. destruct (H [] [] eq_refl NoDup_nil_2) as (entries & filename & Hout & _).
  vm_compute in Hout. discriminate Hout.
Qed.

(** ** The archive's filename *)

Lemma rfind_from_absent c s i : ~ In c s -> rfind_from c s i = (-1)%Z.
Proof.
  revert i. induction s as [| x s IH]; intros i H; cbn [rfind_from]; [reflexivity |].
  rewrite IH by (intros Hin; apply H; right; exact Hin).
  destruct (N.eqb_spec x c) as [-> | _]; [| reflexivity].
  exfalso. apply H. left. reflexivity.
Qed.

Lemma rfind_from_last c s t i :
  (0 <= i)%Z -> ~ In c t ->
  rfind_from c (s ++ c :: t) i = (i + Z.of_nat (length s))%Z.
Proof.
  revert i. induction s as [| x s IH]; intros i Hi Ht.
  - cbn [app rfind_from length]. rewrite (rfind_from_absent c t _ Ht).
    rewrite N.eqb_refl. cbn. lia.
  - cbn [app rfind_from length]. rewrite IH by (trivial; lia).
    destruct (Z.leb_spec 0 (i + 1 + Z.of_nat (length s))); lia.
Qed.

(** [splitext] cuts the extension off a name whose stem is not empty and
    has neither a dot nor a slash. *)
Lemma splitext_stem (s : str) :
  s <> [] -> ~ In extsep s -> ~ In sep s ->
  splitext (s ++ u ".mp4") = (s, u ".mp4").
Proof.
  intros Hne Hdot Hsep. unfold splitext, rfind.
  rewrite (rfind_from_absent sep).
  2: { intros Hin. apply in_app_or in Hin. destruct Hin as [Hin | Hin]; [tauto |].
       vm_compute in Hin. intuition discriminate. }
  change (u ".mp4") with (extsep :: u "mp4").
  rewrite rfind_from_last;
    [| lia | vm_compute; intuition discriminate].
  rewrite !Z.add_0_l, Nat2Z.id.
  assert (Hlt : (-1 <? Z.of_nat (length s))%Z = true) by (apply Z.ltb_lt; lia).
  rewrite Hlt. unfold slice. change (-1 + 1)%Z with 0%Z.
  rewrite Z.sub_0_r, Nat2Z.id. change (Z.to_nat 0) with 0%nat. rewrite drop_0.
  rewrite !take_app_length, drop_app_length.
  destruct s as [| c s']; [contradiction |]. cbn [existsb andb].
  destruct (N.eqb_spec c extsep) as [-> | _]; [| reflexivity].
  exfalso. apply Hdot. left. reflexivity.
Qed.

(** After a build without failures the delivered filename is the first
    record's stem followed by [".zip"], provided the caption behind that
    record leaves a non-empty stem. *)
Lemma create_zip_filename_of_stem rt user_id st description vs path0 :
  user_data st = Some ({| path := path0; name := sanitized_name rt description |} :: vs) ->
  sources_present st ->
  names_plain ({| path := path0; name := sanitized_name rt description |} :: vs) ->
  stem rt description <> [] ->
  exists entries,
    outbox (exec (create_zip rt no_faults user_id) st)
    = outbox st ++ [reply_document (Zip entries) zip_caption
                      (stem rt description ++ u ".zip")].
Proof.
  intros Hud Hsrc Hplain Hne.
  destruct (create_zip_success rt user_id st _ _ Hud Hsrc Hplain) as (entries & Hout & _).
  exists entries. rewrite Hout. cbn [name]. unfold sanitized_name.
  pose proof (stem_charset rt description) as Hall.
  rewrite splitext_stem; [reflexivity | exact Hne | |];
    intros Hin; rewrite Forall_forall in Hall;
    apply list_elem_of_In, Hall in Hin; destruct Hin as [[H | [H | H]] _];
    try discriminate H; unfold isalnum in H; cbn in H; discriminate H.
Qed.

(** C8 on a caption without any letter or digit: the first record's
    target name is [".mp4"], the extension alone; a build without
    failures then delivers the archive under the filename [".mp4.zip"],
    which keeps the extension, and not under [".zip"]. *)
Theorem create_zip_filename_empty_stem :
  let st1 := exec (handle_video example_runtime 7
                     (video_message (u "AgAD") (Some (u "!!!")))) fresh_state in
  let st2 := exec (create_zip example_runtime no_faults 7) st1 in
  collection st1 = [{| path := u "/tmp/video_bot_x/temp_7_AgAD.mp4";
                       name := [] ++ u ".mp4" |}] /\
  outbox st2 = outbox st1 ++
    [reply_document (Zip [Member (u ".mp4") (Blob [])]) zip_caption (u ".mp4.zip")] /\
  u ".mp4.zip" <> [] ++ u ".zip".
Proof.
  vm_compute. repeat split. discriminate.
Qed.

(** * Further properties of the handlers *)

(** ** [cleanup_files] *)

Lemma lookup_cleaned (zp : str) (ps : list str) (m : gmap str file) (p : str) :
  delete zp (delete_paths ps m) !! p
  = if decide (p ∈ zp :: ps) then None else m !! p.
Proof.
  destruct (decide (p ∈ zp :: ps)) as [Hin | Hout].
  - apply elem_of_cons in Hin. destruct Hin as [-> | Hin];
      [apply lookup_delete_eq |].
    destruct (decide (zp = p)) as [-> | Hne]; [apply lookup_delete_eq |].
    rewrite lookup_delete_ne by exact Hne.
    apply lookup_delete_paths_in, list_elem_of_In, Hin.
  - apply not_elem_of_cons in Hout. destruct Hout as [Hne Hout].
    rewrite lookup_delete_ne by congruence.
    apply lookup_delete_paths_out. intros Hin. apply Hout, list_elem_of_In, Hin.
Qed.

(** X1: [cleanup_files] never raises, whether the files are there or
    not; afterwards a path has no file if it is the archive path or the
    path of a listed record, and has the file it had before otherwise;
    the collection and the chat are not touched. *)
Theorem cleanup_files_effect (videos : list pending_video) (zip_path : str)
    (st : state) :
  let st' := exec (cleanup_files videos zip_path) st in
  result (cleanup_files videos zip_path) st = Returned tt /\
  (forall p : str,
     fs st' !! p
     = if decide (p ∈ zip_path :: map path videos) then None else fs st !! p) /\
  user_data st' = user_data st /\
  outbox st' = outbox st.
Proof.
  unfold result, exec. rewrite cleanup_files_spec. cbn [fst snd fs user_data outbox].
  repeat split. intros p. apply lookup_cleaned.
Qed.

(** X2: [cleanup_files] is idempotent: a second run on the same records
    and archive path finds nothing to remove and leaves the state of the
    first run. *)
Theorem cleanup_files_idempotent (videos : list pending_video) (zip_path : str)
    (st : state) :
  exec (cleanup_files videos zip_path) (exec (cleanup_files videos zip_path) st)
  = exec (cleanup_files videos zip_path) st.
Proof.
  unfold exec. rewrite !cleanup_files_spec. cbn [snd fs user_data outbox].
  f_equal. apply map_eq. intros p. rewrite !lookup_cleaned.
  destruct (decide (p ∈ zip_path :: map path videos)); reflexivity.
Qed.

(** ** [error_handler] *)

Lemma error_handler_spec rt user_id videos st :
  user_data st = Some videos ->
  error_handler rt (Some user_id) st
  = (Returned tt,
     {| user_data := Some [];
        fs := delete (zip_path_of rt user_id) (delete_paths (map path videos) (fs st));
        outbox := outbox st |}).
Proof.
  intros H. unfold error_handler, bind, has_videos, get_videos. rewrite H.
  cbn [negb]. rewrite H, cleanup_files_spec. reflexivity.
Qed.

Lemma error_handler_no_key rt user_id st :
  user_data st = None -> error_handler rt (Some user_id) st = (Returned tt, st).
Proof.
  intros H. unfold error_handler, bind, has_videos. rewrite H. reflexivity.
Qed.

(** X3: [error_handler] never raises and sends nothing to the chat. For
    an update with a user whose session has a collection, it empties the
    collection and removes the file of every collected record and the
    user's archive file, and no other file. When the session has no
    collection yet, or the update has no user, it changes nothing: files
    in the temporary directory stay. *)
Theorem error_handler_effect (rt : runtime) (user_id : Z) (st : state) :
  let st' := exec (error_handler rt (Some user_id)) st in
  result (error_handler rt (Some user_id)) st = Returned tt /\
  outbox st' = outbox st /\
  match user_data st with
  | Some videos =>
      user_data st' = Some [] /\
      forall p : str,
        fs st' !! p
        = if decide (p ∈ zip_path_of rt user_id :: map path videos)
          then None else fs st !! p
  | None => st' = st
  end /\
  error_handler rt None st = (Returned tt, st).
Proof.
  unfold result, exec. destruct (user_data st) as [videos |] eqn:H.
  - rewrite (error_handler_spec _ _ videos) by exact H.
    cbn [fst snd fs user_data outbox]. repeat split. intros p. apply lookup_cleaned.
  - rewrite error_handler_no_key by exact H. repeat split.
Qed.

(** X4: on a non-empty collection [error_handler] leaves the collection
    and the temporary directory exactly as [create_zip] leaves them when
    the build goes through or, after a failed build, the error reply is
    delivered; only the chat differs: [create_zip] has sent a message,
    the error handler is silent. *)
Theorem error_handler_like_build (rt : runtime) (ft : faults) (user_id : Z)
    (st : state) (v : pending_video) (vs : list pending_video) :
  user_data st = Some (v :: vs) ->
  error_reply_fault ft = None \/
  result (build_and_send ft (zip_path_of rt user_id)
            (fst (splitext (name v)) ++ u ".zip")) st = Returned tt ->
  user_data (exec (error_handler rt (Some user_id)) st)
  = user_data (exec (create_zip rt ft user_id) st) /\
  fs (exec (error_handler rt (Some user_id)) st)
  = fs (exec (create_zip rt ft user_id) st) /\
  outbox (exec (error_handler rt (Some user_id)) st) = outbox st /\
  outbox (exec (create_zip rt ft user_id) st) <> outbox st.
Proof.
  intros H Hok.
  destruct (create_zip_end_state rt ft user_id st v vs H Hok) as (_ & Hud & Hfs).
  rewrite Hud, Hfs. unfold exec at 1 2 3.
  rewrite (error_handler_spec _ _ (v :: vs)) by exact H.
  cbn [snd fs user_data outbox]. repeat split.
  unfold exec, result in *. rewrite (create_zip_nonempty _ _ _ _ _ _ H).
  unfold try_except.
  destruct (build_and_send_cases ft (zip_path_of rt user_id)
              (fst (splitext (name v)) ++ u ".zip") _ st H)
    as [(e & st1 & E & Hu & Ho & Hf) | (doc & E)]; rewrite E in Hok |- *.
  - destruct Hok as [Hr | Hok]; [| discriminate Hok].
    rewrite (report_and_cleanup_spec _ _ _ _ (v :: vs)) by congruence.
    cbn [snd outbox]. rewrite Ho. intros Heq.
    apply (f_equal length) in Heq. rewrite length_app in Heq. cbn in Heq. lia.
  - cbn [snd outbox]. intros Heq.
    apply (f_equal length) in Heq. rewrite length_app in Heq. cbn in Heq. lia.
Qed.

Lemma error_handler_like_build_witness :
  user_data missing_source_state
  = Some [{| path := u "/tmp/video_bot_x/temp_7_a.mp4"; name := u "a.mp4" |}] /\
  error_reply_fault no_faults = None /\
  fs (exec (error_handler example_runtime (Some 7%Z)) missing_source_state)
  = fs (exec (create_zip example_runtime no_faults 7) missing_source_state).
Proof.
  split; [reflexivity |]. split; [reflexivity |].
  exact (proj1 (proj2 (error_handler_like_build example_runtime no_faults 7
                         missing_source_state _ _ eq_refl (or_introl eq_refl)))).
Defined.

(** ** The archive path *)

Lemma zip_path_inj rt user1 user2 :
  zip_path_of rt user1 = zip_path_of rt user2 -> user1 = user2.
Proof.
  unfold zip_path_of. destruct (path_join_relative (TEMP_DIR rt)) as [pre Hpre].
  rewrite !Hpre by reflexivity. intros E.
  apply app_inv_head in E. apply (app_inv_head (u "videos_")) in E.
  apply app_inv_tail in E. apply str_int_inj, E.
Qed.

Lemma temp_path_not_zip_path rt user1 user2 unique :
  temp_video_path rt user1 unique <> zip_path_of rt user2.
Proof.
  unfold temp_video_path, zip_path_of.
  destruct (path_join_relative (TEMP_DIR rt)) as [pre Hpre].
  rewrite !Hpre by reflexivity. intros E.
  apply app_inv_head in E. discriminate E.
Qed.

(** X5: the archive paths of two users are equal only if the users are,
    and no temporary video path, of any user and attachment, is an
    archive path: opening the archive for writing cannot truncate a
    collected video. *)
Theorem zip_path_separate (rt : runtime) (user1 user2 : Z) (unique : str) :
  (zip_path_of rt user1 = zip_path_of rt user2 <-> user1 = user2) /\
  temp_video_path rt user1 unique <> zip_path_of rt user2.
Proof.
  split; [split; [apply zip_path_inj | intros ->; reflexivity] |].
  apply temp_path_not_zip_path.
Qed.

(** ** More on the sanitizer *)

Lemma stem_no_sep_nul rt description :
  Forall (fun c => c <> sep /\ c <> 0) (stem rt description).
Proof.
  eapply Forall_impl; [apply stem_charset |].
  intros c [[H | [H | H]] _]; split; intros ->; discriminate H.
Qed.

(** X6: a sanitized name is safe as a file name and as an archive entry
    name: it has no slash and no NUL, at least the four characters of
    the extension, and [zipfile] stores an entry under exactly this name
    (no path component is dropped or resolved). *)
Theorem sanitized_name_safe_entry (rt : runtime) (description : str) :
  Forall (fun c => c <> sep /\ c <> 0) (sanitized_name rt description) /\
  (4 <= length (sanitized_name rt description))%nat /\
  stored_arcname (sanitized_name rt description)
  = Some (sanitized_name rt description).
Proof.
  split; [| split].
  - unfold sanitized_name. apply Forall_app. split; [apply stem_no_sep_nul |].
    vm_compute. repeat constructor; discriminate.
  - unfold sanitized_name. rewrite length_app.
    change (length (u ".mp4")) with 4%nat. lia.
  - apply stored_arcname_sanitized.
Qed.

Lemma dropwhile_length p s : (length (dropwhile p s) <= length s)%nat.
Proof.
  induction s as [| c s IH]; cbn [dropwhile length]; [lia |].
  destruct (p c); cbn [length]; lia.
Qed.

Lemma strip_length s : (length (strip s) <= length s)%nat.
Proof.
  unfold strip, rstrip, lstrip. rewrite length_rev.
  etransitivity; [apply dropwhile_length |]. rewrite length_rev.
  apply dropwhile_length.
Qed.

(** X7: sanitizing never lengthens: the name has at most four characters
    more than the caption, those of the extension. *)
Theorem sanitized_name_length (rt : runtime) (description : str) :
  (length (sanitized_name rt description) <= length description + 4)%nat.
Proof.
  unfold sanitized_name, stem, replace_space.
  rewrite length_app, length_map. change (length (u ".mp4")) with 4%nat.
  pose proof (strip_length (List.filter (keep rt) description)).
  pose proof (filter_length_le (keep rt) description). lia.
Qed.

(** X8: a character the sanitizer does not keep (punctuation, an emoji,
    a line break) has no influence on the name, wherever it stands in the
    caption; captions that differ only in such characters get the same
    name. *)
Theorem sanitized_name_ignores_dropped (rt : runtime) (before after : str)
    (c : char) :
  keep rt c = false ->
  sanitized_name rt (before ++ c :: after) = sanitized_name rt (before ++ after).
Proof.
  intros H. unfold sanitized_name, stem.
  rewrite !List.filter_app. cbn [List.filter]. rewrite H. reflexivity.
Qed.

Lemma sanitized_name_ignores_dropped_witness :
  keep example_runtime 0x21 = false /\
  sanitized_name example_runtime (u "a" ++ 0x21 :: u "b")
  = sanitized_name example_runtime (u "a" ++ u "b").
Proof.
  split; [reflexivity |].
  apply (sanitized_name_ignores_dropped example_runtime (u "a") (u "b") 0x21).
  reflexivity.
Defined.

Lemma keep_not_space rt c :
  unicode_consistent rt -> isalnum rt c = true \/ c = 0x2D \/ c = 0x5F ->
  isspace c = false.
Proof.
  intros Hrt [H | [-> | ->]]; try reflexivity.
  apply not_true_is_false. intros Hs. unfold isalnum in H.
  destruct (N.ltb_spec c 0x100) as [Hlt | Hge].
  - unfold isalnum_latin1 in H. unfold isspace in Hs. bool_to_prop. lia.
  - rewrite (Hrt c Hs) in H. discriminate H.
Qed.

Lemma dropwhile_none p s : Forall (fun c => p c = false) s -> dropwhile p s = s.
Proof.
  intros H. apply dropwhile_head. destruct H as [| c s Hc _]; [discriminate |].
  intros c' [= <-]. exact Hc.
Qed.

(** X9: sanitizing is idempotent on the stem: the stem of a name, given
    as a caption again, comes back unchanged, and it contains no
    whitespace of any kind. *)
Theorem stem_idempotent (rt : runtime) (description : str) :
  unicode_consistent rt ->
  stem rt (stem rt description) = stem rt description /\
  Forall (fun c => isspace c = false) (stem rt description).
Proof.
  intros Hrt. pose proof (stem_charset rt description) as Hall.
  assert (Hns : Forall (fun c => isspace c = false) (stem rt description)).
  { eapply Forall_impl; [exact Hall |]. intros c [H _]. eapply keep_not_space; eauto. }
  split; [| exact Hns].
  set (s := stem rt description) in *. unfold stem.
  rewrite filter_all.
  2: { eapply Forall_impl; [exact Hall |]. intros c [[H | [-> | ->]] _];
       unfold keep; [rewrite H |..]; reflexivity. }
  unfold strip, rstrip, lstrip. rewrite (dropwhile_none _ s Hns).
  rewrite dropwhile_none by (apply Forall_rev, Hns). rewrite rev_involutive.
  unfold replace_space. rewrite <- (map_id s) at 2. apply map_ext_Forall.
  eapply Forall_impl; [exact Hall |]. intros c [_ Hc].
  destruct (N.eqb_spec c 0x20); [contradiction | reflexivity].
Qed.

Lemma stem_idempotent_witness :
  unicode_consistent example_runtime /\
  stem example_runtime (stem example_runtime (u " My Trip! "))
  = stem example_runtime (u " My Trip! ").
Proof.
  assert (H : unicode_consistent example_runtime) by (intros c _; reflexivity).
  split; [exact H |].
  exact (proj1 (stem_idempotent example_runtime (u " My Trip! ") H)).
Defined.

(** ** [handle_video], message after message *)

Lemma handle_video_step rt user_id msg st :
  handle_video rt user_id msg st
  = match accepted msg with
    | Some item =>
        (Returned tt,
         {| user_data := Some (collection st ++ [record_of rt user_id item]);
            fs := <[path (record_of rt user_id item) := payload_of rt item]> (fs st);
            outbox := outbox st ++
              [reply_text (saved_text (name (record_of rt user_id item))
                             (length (collection st ++ [record_of rt user_id item])))] |})
    | None =>
        (Returned tt,
         {| user_data := Some (collection st); fs := fs st;
            outbox := outbox st ++
              [reply_text (match py_or (video msg) (document msg) with
                           | Some _ => no_caption_text
                           | None => no_video_text
                           end)] |})
    end.
Proof.
  unfold accepted. destruct (py_or (video msg) (document msg)) as [a |] eqn:Ha.
  - destruct (caption msg) as [[| c d] |] eqn:Hc.
    + apply (handle_video_no_caption _ _ _ _ a); auto.
    + apply (handle_video_accepts _ _ _ _ a (c :: d)); auto; discriminate.
    + apply (handle_video_no_caption _ _ _ _ a); auto.
  - apply handle_video_no_attachment, Ha.
Qed.

Lemma for_in_cons_returned {A} (x : A) (xs : list A) (body : A -> M unit) st st1 :
  body x st = (Returned tt, st1) ->
  for_in (x :: xs) body st = for_in xs body st1.
Proof. intros H. cbn [for_in]. unfold bind. rewrite H. reflexivity. Qed.


(** ** [create_zip], returning or raising *)

Lemma create_zip_empty rt ft user_id st :
  collection st = [] ->
  create_zip rt ft user_id st
  = (Returned tt, {| user_data := user_data st; fs := fs st;
                     outbox := outbox st ++ [reply_text empty_text] |}).
Proof.
  unfold collection. destruct st as [[[| v vs] |] m out]; cbn [user_data];
    intros H; try discriminate; reflexivity.
Qed.

Lemma create_zip_one_reply rt ft user_id st v vs :
  user_data st = Some (v :: vs) ->
  error_reply_fault ft = None \/
  result (build_and_send ft (zip_path_of rt user_id)
            (fst (splitext (name v)) ++ u ".zip")) st = Returned tt ->
  exists ev, outbox (exec (create_zip rt ft user_id) st) = outbox st ++ [ev].
Proof.
  intros H Hok. unfold exec, result in *. rewrite (create_zip_nonempty _ _ _ _ _ _ H).
  unfold try_except.
  destruct (build_and_send_cases ft (zip_path_of rt user_id)
              (fst (splitext (name v)) ++ u ".zip") _ st H)
    as [(e & st1 & E & Hu & Ho & Hf) | (doc & E)]; rewrite E in Hok |- *.
  - destruct Hok as [Hr | Hok]; [| discriminate Hok].
    rewrite (report_and_cleanup_spec _ _ _ _ (v :: vs)) by congruence.
    cbn [snd outbox]. rewrite Ho. eauto.
  - cbn [snd outbox]. eauto.
Qed.

Lemma nonempty_collection st :
  collection st <> [] -> exists v vs, user_data st = Some (v :: vs).
Proof.
  unfold collection. destruct (user_data st) as [[| v vs] |]; intros H;
    try contradiction; eauto.
Qed.

(** The one way [create_zip] raises: the build has failed and the error
    reply fails too. The state is the one the build left: nothing sent,
    the collection as it was, only the archive file possibly changed. *)
Lemma create_zip_raises rt ft user_id st e' :
  result (create_zip rt ft user_id) st = Raised e' ->
  error_reply_fault ft = Some e' /\
  collection st <> [] /\
  same_but (zip_path_of rt user_id) st (exec (create_zip rt ft user_id) st).
Proof.
  intros Hres. destruct (decide (collection st = [])) as [Hempty | Hne].
  { unfold result in Hres. rewrite create_zip_empty in Hres by exact Hempty.
    discriminate Hres. }
  destruct (nonempty_collection st Hne) as (v & vs & Hud).
  unfold result, exec in *. rewrite (create_zip_nonempty _ _ _ _ _ _ Hud) in *.
  unfold try_except in *.
  destruct (build_and_send_cases ft (zip_path_of rt user_id)
              (fst (splitext (name v)) ++ u ".zip") _ st Hud)
    as [(e & st1 & E & Hsb) | (doc & E)]; rewrite E in *; [| discriminate Hres].
  destruct (error_reply_fault ft) as [e'' |] eqn:Hr.
  - rewrite (report_and_cleanup_reply_fails _ _ _ _ e'') in * by exact Hr.
    cbn [fst snd] in *. injection Hres as ->. auto.
  - destruct Hsb as (Hu & _).
    rewrite (report_and_cleanup_spec _ _ _ _ (v :: vs)) in Hres by congruence.
    discriminate Hres.
Qed.

(** X11: what [create_zip] does, whatever the state and whatever fails
    during the build. If it returns, it has sent exactly one message; on
    an empty collection nothing else has changed; on a non-empty one the
    collection is the empty list, the archive path and the paths of the
    collected records have no file, and every other file of the
    temporary directory is as it was. It returns whenever the error
    reply can be sent. If it raises, the exception is that of the error
    reply after a failed build: nothing was sent, the collection is as
    it was, and no file except the archive has changed. *)
Theorem create_zip_effect (rt : runtime) (ft : faults) (user_id : Z) (st : state) :
  let st' := exec (create_zip rt ft user_id) st in
  match result (create_zip rt ft user_id) st with
  | Returned _ =>
      length (outbox st') = S (length (outbox st)) /\
      user_data st' = (if decide (collection st = []) then user_data st else Some []) /\
      forall p : str,
        fs st' !! p
        = if decide (collection st <> [] /\
                     p ∈ zip_path_of rt user_id :: map path (collection st))
          then None else fs st !! p
  | Raised e =>
      error_reply_fault ft = Some e /\
      collection st <> [] /\
      outbox st' = outbox st /\
      user_data st' = user_data st /\
      forall p : str, p <> zip_path_of rt user_id -> fs st' !! p = fs st !! p
  end /\
  (error_reply_fault ft = None -> result (create_zip rt ft user_id) st = Returned tt).
Proof.
  cbv zeta. split.
  - destruct (result (create_zip rt ft user_id) st) as [[] | e] eqn:Hres.
    + destruct (decide (collection st = [])) as [Hempty | Hne].
      * unfold exec. rewrite create_zip_empty by exact Hempty.
        cbn [fst snd outbox user_data fs]. rewrite length_app. cbn [length].
        repeat split; [lia |]. intros p.
        destruct (decide (collection st <> [] /\ _)) as [[H _] | _];
          [contradiction | reflexivity].
      * destruct (nonempty_collection st Hne) as (v & vs & Hud).
        assert (Hok : error_reply_fault ft = None \/
                      result (build_and_send ft (zip_path_of rt user_id)
                                (fst (splitext (name v)) ++ u ".zip")) st
                      = Returned tt).
        { destruct (error_reply_fault ft) as [e' |] eqn:Hr; [right | left; reflexivity].
          unfold result in *. rewrite (create_zip_nonempty _ _ _ _ _ _ Hud) in Hres.
          unfold try_except in Hres.
          destruct (build_and_send ft _ _ st) as [[[] | e] st1]; [reflexivity |].
          rewrite (report_and_cleanup_reply_fails _ _ _ _ e') in Hres by exact Hr.
          discriminate Hres. }
        destruct (create_zip_end_state rt ft user_id st v vs Hud Hok)
          as (_ & Hud' & Hfs).
        destruct (create_zip_one_reply rt ft user_id st v vs Hud Hok) as (ev & Hout).
        rewrite Hout, length_app. cbn [length].
        split; [lia |]. split; [exact Hud' |].
        intros p. rewrite Hfs, lookup_cleaned.
        assert (Hcol : collection st = v :: vs)
          by (unfold collection; rewrite Hud; reflexivity).
        rewrite Hcol. assert (Hnn : v :: vs <> []) by discriminate.
        destruct (decide (p ∈ _)) as [Hin | Hout'];
          destruct (decide (_ /\ _)) as [Hd | Hd]; try reflexivity; tauto.
    + destruct (create_zip_raises rt ft user_id st e Hres) as (Hr & Hne & Hu & Ho & Hf).
      auto.
  - intros Hr. destruct (result (create_zip rt ft user_id) st) as [[] | e] eqn:Hres;
      [reflexivity |].
    destruct (create_zip_raises rt ft user_id st e Hres) as (Hr' & _). congruence.
Qed.

(** ** A session under the handler table *)

Lemma session_inv_reset (rt : runtime) (user_id : Z) (m : gmap str file)
    (out : list event) :
  m !! zip_path_of rt user_id = None ->
  session_inv rt user_id {| user_data := Some []; fs := m; outbox := out |}.
Proof. intros H. repeat split; try constructor. exact H. Qed.

Lemma routed_returned rt user_id (m : M unit) st st' :
  m st = (Returned tt, st') -> routed rt user_id m st = (Returned tt, st').
Proof. intros H. unfold routed, try_except. rewrite H. reflexivity. Qed.

Lemma routed_raised rt user_id (m : M unit) st e st1 :
  m st = (Raised e, st1) ->
  routed rt user_id m st = error_handler rt (Some user_id) st1.
Proof. intros H. unfold routed, try_except. rewrite H. reflexivity. Qed.

Lemma dispatch_start rt user_id st :
  dispatch rt user_id start_command st = start st.
Proof. reflexivity. Qed.

Lemma dispatch_video rt user_id msg st :
  dispatch rt user_id (video_update msg) st = handle_video rt user_id msg st.
Proof.
  cbn [dispatch]. pose proof (handle_video_step rt user_id msg st) as H.
  destruct (accepted msg); rewrite (routed_returned _ _ _ _ _ H); symmetry; exact H.
Qed.

Lemma dispatch_zip_empty rt ft user_id st :
  collection st = [] ->
  dispatch rt user_id (zip_command ft) st = create_zip rt ft user_id st.
Proof.
  intros H. cbn [dispatch]. pose proof (create_zip_empty rt ft user_id st H) as E.
  rewrite (routed_returned _ _ _ _ _ E). symmetry. exact E.
Qed.

(** [/zip] on a non-empty collection, with [error_handler] behind it:
    whatever fails, the collection is reset and the collected files and
    the archive are removed. *)
Lemma dispatch_zip_spec rt ft user_id st v vs :
  user_data st = Some (v :: vs) ->
  exists out,
    dispatch rt user_id (zip_command ft) st
    = (Returned tt,
       {| user_data := Some [];
          fs := delete (zip_path_of rt user_id)
                  (delete_paths (map path (v :: vs)) (fs st));
          outbox := out |}).
Proof.
  intros Hud. cbn [dispatch].
  destruct (create_zip rt ft user_id st) as [[[] | e'] st'] eqn:E.
  - assert (Hok : error_reply_fault ft = None \/
                  result (build_and_send ft (zip_path_of rt user_id)
                            (fst (splitext (name v)) ++ u ".zip")) st
                  = Returned tt).
    { destruct (error_reply_fault ft) as [e' |] eqn:Hr; [right | left; reflexivity].
      unfold result. rewrite (create_zip_nonempty _ _ _ _ _ _ Hud) in E.
      unfold try_except in E.
      destruct (build_and_send ft _ _ st) as [[[] | e] st1]; [reflexivity |].
      rewrite (report_and_cleanup_reply_fails _ _ _ _ e') in E by exact Hr.
      discriminate E. }
    destruct (create_zip_end_state rt ft user_id st v vs Hud Hok) as (_ & Hud' & Hfs).
    unfold exec in Hud', Hfs. rewrite E in Hud', Hfs. cbn [snd] in Hud', Hfs.
    rewrite (routed_returned _ _ _ _ _ E). exists (outbox st').
    destruct st' as [ud m out]. cbn [user_data fs outbox] in *. subst. reflexivity.
  - assert (Hres : result (create_zip rt ft user_id) st = Raised e')
      by (unfold result; rewrite E; reflexivity).
    destruct (create_zip_raises rt ft user_id st e' Hres) as (_ & _ & Hu & Ho & Hf).
    unfold exec in Hu, Ho, Hf. rewrite E in Hu, Ho, Hf. cbn [snd] in Hu, Ho, Hf.
    rewrite (routed_raised _ _ _ _ _ _ E).
    rewrite (error_handler_spec _ _ (v :: vs)) by congruence.
    exists (outbox st'). rewrite (cleanup_same_but _ _ (fs st) (fs st') Hf).
    reflexivity.
Qed.

Lemma dispatch_keeps_inv rt user_id upd st :
  session_inv rt user_id st ->
  result (dispatch rt user_id upd) st = Returned tt /\
  session_inv rt user_id (exec (dispatch rt user_id upd) st).
Proof.
  intros (Hsrc & Hown & Hzip). unfold result, exec.
  destruct upd as [| ft | msg | [|]].
  - rewrite dispatch_start. split; [reflexivity |]. apply session_inv_reset, Hzip.
  - destruct (decide (collection st = [])) as [Hempty | Hne].
    + rewrite dispatch_zip_empty, create_zip_empty by exact Hempty.
      split; [reflexivity |]. repeat split; assumption.
    + destruct (nonempty_collection st Hne) as (v & vs & Hud).
      destruct (dispatch_zip_spec rt ft user_id st v vs Hud) as [out E].
      rewrite E. split; [reflexivity |]. apply session_inv_reset, lookup_delete_eq.
  - rewrite dispatch_video, handle_video_step. destruct (accepted msg) as [item |];
      (split; [reflexivity |]); cbn [snd];
      unfold session_inv, sources_present, collection; cbn [user_data fs].
    + split; [| split].
      * apply Forall_app. split.
        -- eapply Forall_impl; [exact Hsrc |]. intros v. apply is_Some_lookup_insert.
        -- constructor; [| constructor]. rewrite lookup_insert_eq. eauto.
      * apply Forall_app. split; [exact Hown |]. constructor; [eauto | constructor].
      * rewrite lookup_insert_ne; [exact Hzip |]. apply temp_path_not_zip_path.
    + repeat split; assumption.
  - cbn [dispatch]. destruct (user_data st) as [videos |] eqn:Hud.
    + rewrite (error_handler_spec _ _ videos) by exact Hud.
      split; [reflexivity |]. apply session_inv_reset, lookup_delete_eq.
    + rewrite error_handler_no_key by exact Hud. split; [reflexivity |].
      repeat split; assumption.
  - split; [reflexivity |]. repeat split; assumption.
Qed.

Lemma run_cons rt user_id upd updates st :
  result (dispatch rt user_id upd) st = Returned tt ->
  run rt user_id (upd :: updates) st
  = run rt user_id updates (exec (dispatch rt user_id upd) st).
Proof.
  unfold result, exec, run. intros H. apply for_in_cons_returned.
  destruct (dispatch rt user_id upd st) as [r st1]. cbn in *. rewrite H.
  reflexivity.
Qed.

Lemma run_keeps_inv rt user_id updates : forall st,
  session_inv rt user_id st ->
  result (run rt user_id updates) st = Returned tt /\
  session_inv rt user_id (exec (run rt user_id updates) st).
Proof.
  induction updates as [| upd updates IH]; intros st Hinv.
  - split; [reflexivity | exact Hinv].
  - destruct (dispatch_keeps_inv rt user_id upd st Hinv) as [Hres Hinv'].
    unfold result, exec. rewrite (run_cons _ _ _ _ _ Hres). apply IH, Hinv'.
Qed.

Lemma fresh_state_inv rt user_id : session_inv rt user_id fresh_state.
Proof. repeat split; constructor. Qed.

Lemma session_inv_of_run rt user_id updates :
  session_inv rt user_id (exec (run rt user_id updates) fresh_state).
Proof. apply run_keeps_inv, fresh_state_inv. Qed.

(** X12: a session invariant of the application [main] sets up. Through
    any sequence of [/start], [/zip] (whatever fails during the build or
    in its error reply), video messages and error-handler runs, every
    update is handled to its end: when [create_zip] raises, which it
    does if its error reply fails, the exception goes to the registered
    [error_handler], which does the cleanup [create_zip] skipped. So
    between two updates every collected record has a temporary path and
    a sanitized name made by [handle_video] for this user, its file is
    in the temporary directory, and the user's archive file is not. *)
Theorem session_invariant (rt : runtime) (user_id : Z) (updates : list update)
    (st : state) :
  session_inv rt user_id st ->
  result (run rt user_id updates) st = Returned tt /\
  session_inv rt user_id (exec (run rt user_id updates) st).
Proof. apply run_keeps_inv. Qed.

Lemma session_invariant_witness :
  session_inv example_runtime 7 fresh_state /\
  session_inv example_runtime 7
    (exec (run example_runtime 7
             [video_update (video_message (u "AgAD") (Some (u "clip")));
              zip_command {| open_fault := None; write_fault := fun _ _ => None;
                             close_fault := None;
                             send_fault := Some (OtherError (u "Timed out"));
                             error_reply_fault := Some (OtherError (u "Timed out")) |};
              error_update true;
              video_update (video_message (u "AgAE") (Some (u "next")));
              zip_command no_faults])
          fresh_state).
Proof.
  split; [apply fresh_state_inv |].
  exact (proj2 (session_invariant example_runtime 7 _ fresh_state
                  (fresh_state_inv example_runtime 7))).
Defined.

Lemma inv_names_plain rt user_id st :
  session_inv rt user_id st -> names_plain (collection st).
Proof.
  intros (_ & Hown & _). eapply Forall_impl; [exact Hown |].
  intros v [item ->]. apply stored_arcname_sanitized.
Qed.

Lemma write_loop_contents zp vs : forall contents st es0,
  fs st !! zp = Some (Zip es0) ->
  Forall2 (fun v f => fs st !! path v = Some f /\ path v <> zp) vs contents ->
  names_plain vs ->
  exists st1,
    for_in vs (zipf_write no_faults zp) st = (Returned tt, st1) /\
    same_but zp st st1 /\
    fs st1 !! zp = Some (Zip (es0 ++ zip_with Member (map name vs) contents)).
Proof.
  induction vs as [| v vs IH]; intros contents st es0 Hz Hall Hplain.
  - apply Forall2_nil_inv_l in Hall. subst contents.
    exists st. cbn [map zip_with]. rewrite app_nil_r.
    repeat split; trivial.
  - apply Forall2_cons_inv_l in Hall.
    destruct Hall as (f & contents' & [Hf Hnz] & Hrest & ->).
    inversion Hplain as [| ? ? Hv Hplain']; subst.
    assert (E : zipf_write no_faults zp v st
                = write_file zp (Zip (es0 ++ [Member (name v) f])) st).
    { unfold zipf_write. rewrite Hf, Hv, Hz. reflexivity. }
    cbn [for_in]. unfold bind. rewrite E. unfold write_file at 1.
    match goal with |- context [for_in vs _ ?s] => set (st' := s) end.
    destruct (IH contents' st' (es0 ++ [Member (name v) f])) as (st1 & E1 & Hsb & Hz1).
    + apply lookup_insert_eq.
    + eapply Forall2_impl; [exact Hrest |]. intros w g [Hg Hw]. split; [| exact Hw].
      unfold st'. cbn [fs]. rewrite lookup_insert_ne by congruence. exact Hg.
    + exact Hplain'.
    + exists st1. rewrite E1. split; [reflexivity |]. split.
      * eapply same_but_trans; [| exact Hsb].
        apply (write_file_same_but zp (Zip (es0 ++ [Member (name v) f])) st).
      * rewrite Hz1, <- app_assoc. reflexivity.
Qed.

(** A build without failures copies, for each record in order, the file
    now under the record's path into an entry under the record's name. *)
Lemma create_zip_contents rt user_id st v vs contents :
  user_data st = Some (v :: vs) ->
  Forall2 (fun w f => fs st !! path w = Some f /\ path w <> zip_path_of rt user_id)
          (v :: vs) contents ->
  names_plain (v :: vs) ->
  outbox (exec (create_zip rt no_faults user_id) st)
  = outbox st ++
    [reply_document (Zip (zip_with Member (map name (v :: vs)) contents)) zip_caption
       (fst (splitext (name v)) ++ u ".zip")].
Proof.
  intros Hud Hall Hplain. unfold exec.
  rewrite (create_zip_nonempty _ _ _ _ _ _ Hud). unfold try_except.
  set (zp := zip_path_of rt user_id) in *.
  destruct (write_loop_contents zp (v :: vs) contents
              {| user_data := user_data st; fs := <[zp := Zip []]> (fs st);
                 outbox := outbox st |} [])
    as (st1 & E1 & (Hu & Ho & Hf) & Hz).
  { apply lookup_insert_eq. }
  { eapply Forall2_impl; [exact Hall |]. intros w g [Hg Hw]. split; [| exact Hw].
    cbn [fs]. rewrite lookup_insert_ne by congruence. exact Hg. }
  { exact Hplain. }
  assert (Ew : write_archive no_faults zp st = (Returned tt, st1)).
  { unfold write_archive, ZipFile, bind, with_close, zipf_close.
    cbn [open_fault close_fault no_faults].
    unfold write_file at 1, get_videos. cbn [user_data]. rewrite Hud.
    rewrite Hud in E1. rewrite E1. reflexivity. }
  unfold build_and_send, bind. rewrite Ew. unfold open_rb. rewrite Hz.
  unfold send_document. cbn [send_fault no_faults].
  unfold send at 1, get_videos. cbn [user_data]. cbn [user_data] in Hu.
  rewrite Hu, Hud, cleanup_files_spec.
  unfold set_videos. cbn [snd outbox app]. rewrite Ho. reflexivity.
Qed.

Lemma inv_contents rt user_id st :
  session_inv rt user_id st ->
  exists contents,
    Forall2 (fun w f => fs st !! path w = Some f /\ path w <> zip_path_of rt user_id)
            (collection st) contents.
Proof.
  intros (Hsrc & Hown & _). unfold sources_present in Hsrc.
  induction (collection st) as [| v vs IH].
  - exists []. constructor.
  - inversion Hsrc as [| ? ? [f Hf] Hsrc']; subst.
    inversion Hown as [| ? ? [item ->] Hown']; subst.
    destruct (IH Hsrc' Hown') as [contents Hall].
    exists (f :: contents). constructor; [| exact Hall].
    split; [exact Hf | apply temp_path_not_zip_path].
Qed.

(** X13: a build never fails for a reason of the bot's own making. In
    the state a fresh session is in after any sequence of updates, if
    something is collected then [/zip] with no failure of the
    environment delivers an archive (never the error reply) that has one
    entry per collected record, in order, under the record's name and
    holding the file that is under the record's path. *)
Theorem build_succeeds_in_reachable_state (rt : runtime) (user_id : Z)
    (updates : list update) :
  let st := exec (run rt user_id updates) fresh_state in
  collection st <> [] ->
  exists contents filename,
    Forall2 (fun w f => fs st !! path w = Some f) (collection st) contents /\
    outbox (exec (create_zip rt no_faults user_id) st)
    = outbox st ++
      [reply_document (Zip (zip_with Member (map name (collection st)) contents))
         zip_caption filename].
Proof.
  intros st Hne.
  destruct (run_keeps_inv rt user_id updates fresh_state (fresh_state_inv rt user_id))
    as [_ Hinv]. fold st in Hinv.
  destruct (nonempty_collection st Hne) as (v & vs & Hud).
  assert (Hcol : collection st = v :: vs) by (unfold collection; rewrite Hud; reflexivity).
  pose proof (inv_names_plain rt user_id st Hinv) as Hplain.
  destruct (inv_contents rt user_id st Hinv) as [contents Hall].
  rewrite Hcol in Hplain, Hall |- *.
  exists contents, (fst (splitext (name v)) ++ u ".zip"). split.
  - eapply Forall2_impl; [exact Hall |]. intros w f [H _]. exact H.
  - apply create_zip_contents; assumption.
Qed.

Lemma build_succeeds_in_reachable_state_witness :
  let st := exec (run example_runtime 7
                    [video_update (video_message (u "AgAD") (Some (u "one")));
                     zip_command {| open_fault := Some (OtherError (u "disk full"));
                                    write_fault := fun _ _ => None;
                                    close_fault := None; send_fault := None;
                                    error_reply_fault := None |};
                     start_command;
                     video_update (video_message (u "AgAD") (Some (u "two")))])
                 fresh_state in
  collection st <> [] /\
  exists contents filename,
    Forall2 (fun w f => fs st !! path w = Some f) (collection st) contents /\
    outbox (exec (create_zip example_runtime no_faults 7) st)
    = outbox st ++
      [reply_document (Zip (zip_with Member (map name (collection st)) contents))
         zip_caption filename].
Proof.
  cbv zeta. split; [vm_compute; discriminate |].
  apply (build_succeeds_in_reachable_state example_runtime 7).
  vm_compute. discriminate.
Defined.

(** ** Sessions do not touch each other's files *)

Lemma foreign_not_cleaned rt user_id st (p : str) :
  session_inv rt user_id st -> foreign rt user_id p ->
  p ∉ zip_path_of rt user_id :: map path (collection st).
Proof.
  intros (_ & Hown & _) [Htemp Hzip] Hin.
  apply elem_of_cons in Hin. destruct Hin as [-> | Hin]; [contradiction |].
  apply list_elem_of_In, in_map_iff in Hin. destruct Hin as (v & <- & Hv).
  rewrite Forall_forall in Hown. apply list_elem_of_In, Hown in Hv.
  destruct Hv as [item ->]. eapply Htemp. reflexivity.
Qed.

Lemma dispatch_frame rt user_id upd st (p : str) :
  session_inv rt user_id st -> foreign rt user_id p ->
  fs (exec (dispatch rt user_id upd) st) !! p = fs st !! p.
Proof.
  intros Hinv Hp. pose proof (foreign_not_cleaned _ _ _ _ Hinv Hp) as Hout.
  unfold exec. destruct upd as [| ft | msg | [|]]; try reflexivity.
  - destruct (decide (collection st = [])) as [Hempty | Hne].
    + rewrite dispatch_zip_empty, create_zip_empty by exact Hempty. reflexivity.
    + destruct (nonempty_collection st Hne) as (v & vs & Hud).
      destruct (dispatch_zip_spec rt ft user_id st v vs Hud) as [out E].
      rewrite E. cbn [snd fs]. rewrite lookup_cleaned.
      unfold collection in Hout. rewrite Hud in Hout.
      destruct (decide (p ∈ _)); [contradiction | reflexivity].
  - rewrite dispatch_video, handle_video_step.
    destruct (accepted msg) as [item |]; [| reflexivity].
    cbn [snd fs]. apply lookup_insert_ne. intros E. destruct Hp as [Htemp _].
    eapply Htemp. symmetry. exact E.
  - cbn [dispatch]. destruct (user_data st) as [videos |] eqn:Hud.
    + rewrite (error_handler_spec _ _ videos) by exact Hud. cbn [snd fs].
      rewrite lookup_cleaned. unfold collection in Hout. rewrite Hud in Hout.
      destruct (decide (p ∈ _)); [contradiction | reflexivity].
    + rewrite error_handler_no_key by exact Hud. reflexivity.
Qed.

Lemma run_frame rt user_id updates (p : str) : forall st,
  session_inv rt user_id st -> foreign rt user_id p ->
  fs (exec (run rt user_id updates) st) !! p = fs st !! p.
Proof.
  induction updates as [| upd updates IH]; intros st Hinv Hp; [reflexivity |].
  destruct (dispatch_keeps_inv rt user_id upd st Hinv) as [Hres Hinv'].
  unfold exec at 1. rewrite (run_cons _ _ _ _ _ Hres).
  fold (exec (run rt user_id updates) (exec (dispatch rt user_id upd) st)).
  rewrite IH by assumption. apply dispatch_frame; assumption.
Qed.

Lemma other_user_foreign rt user_id other :
  other <> user_id ->
  (forall unique, foreign rt user_id (temp_video_path rt other unique)) /\
  foreign rt user_id (zip_path_of rt other).
Proof.
  intros Hne. split; [intros unique |]; split.
  - intros unique' E. apply temp_video_path_inj in E. tauto.
  - apply temp_path_not_zip_path.
  - intros unique' E. symmetry in E. revert E. apply temp_path_not_zip_path.
  - intros E. apply zip_path_inj in E. contradiction.
Qed.

(** X14: one session never touches the files of another. Whatever
    updates a user's session handles, a file under a path that is
    neither a temporary video path nor the archive path of that user
    stays as it is; in particular the temporary videos and the archive
    of every other user, also while that user's own build is under way. *)
Theorem sessions_isolated (rt : runtime) (user_id other : Z)
    (updates : list update) (st : state) :
  session_inv rt user_id st ->
  other <> user_id ->
  let st' := exec (run rt user_id updates) st in
  (forall unique,
     fs st' !! temp_video_path rt other unique
     = fs st !! temp_video_path rt other unique) /\
  fs st' !! zip_path_of rt other = fs st !! zip_path_of rt other /\
  (forall p : str, foreign rt user_id p -> fs st' !! p = fs st !! p).
Proof.
  intros Hinv Hne st'. destruct (other_user_foreign rt user_id other Hne) as [Ht Hz].
  split; [| split].
  - intros unique. apply run_frame; [exact Hinv | apply Ht].
  - apply run_frame; assumption.
  - intros p Hp. apply run_frame; assumption.
Qed.

Lemma sessions_isolated_witness :
  let st := {| user_data := None;
               fs := {[ temp_video_path example_runtime 8 (u "AgAD") := Blob [1] ]};
               outbox := [] |} in
  session_inv example_runtime 7 st /\ (8 <> 7)%Z /\
  fs (exec (run example_runtime 7
              [video_update (video_message (u "AgAD") (Some (u "clip")));
               zip_command no_faults; error_update true])
           st) !! temp_video_path example_runtime 8 (u "AgAD")
  = Some (Blob [1]).
Proof.
  cbv zeta.
  assert (Hinv : session_inv example_runtime 7
            {| user_data := None;
               fs := {[ temp_video_path example_runtime 8 (u "AgAD") := Blob [1] ]};
               outbox := [] |}).
  { repeat split; try constructor; vm_compute; reflexivity. }
  assert (Hne : (8 <> 7)%Z) by lia.
  split; [exact Hinv |]. split; [exact Hne |].
  rewrite (proj1 (sessions_isolated example_runtime 7 8 _ _ Hinv Hne) (u "AgAD")).
  vm_compute. reflexivity.
Defined.

(** ** What the archive holds *)






(** ** The archive's filename, in general *)

(** X16: the filename of a delivered archive. In a session state kept by
    the handlers, a build without failures sends the archive under the
    stem of the first record's caption followed by [".zip"]; when that
    stem is empty (a caption without letters, digits, hyphens and
    underscores) the filename is [".mp4.zip"]. Later records have no
    part in it. *)
Theorem archive_filename_of_first_caption (rt : runtime) (user_id : Z) (st : state)
    (item : attachment * str) (vs : list pending_video) :
  session_inv rt user_id st ->
  user_data st = Some (record_of rt user_id item :: vs) ->
  exists doc,
    outbox (exec (create_zip rt no_faults user_id) st)
    = outbox st ++
      [reply_document doc zip_caption
         (match stem rt (snd item) with [] => u ".mp4" | s => s end ++ u ".zip")].
Proof.
  intros Hinv Hud.
  assert (Hcol : collection st = record_of rt user_id item :: vs)
    by (unfold collection; rewrite Hud; reflexivity).
  pose proof (inv_names_plain rt user_id st Hinv) as Hplain.
  destruct (inv_contents rt user_id st Hinv) as [contents Hall].
  rewrite Hcol in Hplain, Hall.
  rewrite (create_zip_contents rt user_id st _ _ contents Hud Hall Hplain).
  eexists. do 3 f_equal. cbn [name record_of]. unfold sanitized_name.
  destruct (stem rt (snd item)) as [| c s] eqn:Hstem; [reflexivity |].
  rewrite splitext_stem; [reflexivity | discriminate | |];
    intros Hin; pose proof (stem_charset rt (snd item)) as Hch;
    rewrite Hstem, Forall_forall in Hch;
    apply list_elem_of_In, Hch in Hin; destruct Hin as [[H | [H | H]] _];
    discriminate H.
Qed.

Lemma archive_filename_of_first_caption_witness :
  let st := exec (run example_runtime 7
                    [video_update (video_message (u "AgAD") (Some (u "My Trip! (2024)")));
                     video_update (video_message (u "AgAE") (Some (u "second")))])
                 fresh_state in
  exists doc,
    outbox (exec (create_zip example_runtime no_faults 7) st)
    = outbox st ++ [reply_document doc zip_caption (u "My_Trip_2024.zip")].
Proof.
  cbv zeta.
  apply (archive_filename_of_first_caption example_runtime 7 _
           ({| file_id := u "id_AgAD"; file_unique_id := u "AgAD" |},
            u "My Trip! (2024)")
           [record_of example_runtime 7
              ({| file_id := u "id_AgAE"; file_unique_id := u "AgAE" |}, u "second")]).
  - apply session_inv_of_run.
  - vm_compute. reflexivity.
Defined.

(** ** [/start] in the middle of a session *)

(** X17: [/start] throws the pending collection away. Whatever was
    collected, after [/start] a [/zip] finds nothing: it only sends the
    warning, delivers no archive, and the files downloaded before are
    all still in the temporary directory. *)
Theorem start_then_zip (rt : runtime) (ft : faults) (user_id : Z) (st : state) :
  let st2 := exec (create_zip rt ft user_id) (exec start st) in
  outbox st2 = outbox st ++ [reply_text start_text; reply_text empty_text] /\
  user_data st2 = Some [] /\
  fs st2 = fs st.
Proof.
  cbv zeta. unfold exec at 1. rewrite create_zip_empty by reflexivity.
  cbn. rewrite <- app_assoc. repeat split.
Qed.

(** ** The cleanup of [main] on exit *)

Lemma remove_ignoring_errors (p : str) (st : state) :
  try_except (os_remove p) (fun _ => ret tt) st
  = (Returned tt, {| user_data := user_data st; fs := delete p (fs st);
                     outbox := outbox st |}).
Proof.
  unfold try_except, os_remove. destruct (fs st !! p) eqn:E; [reflexivity |].
  unfold ret. rewrite delete_id by exact E. destruct st; reflexivity.
Qed.

Lemma remove_listed_spec rt names st :
  remove_listed rt names st
  = (Returned tt,
     {| user_data := user_data st;
        fs := delete_paths (map (path_join (TEMP_DIR rt)) names) (fs st);
        outbox := outbox st |}).
Proof.
  unfold remove_listed. revert st.
  induction names as [| n names IH]; intros st; cbn [for_in map delete_paths].
  - destruct st; reflexivity.
  - unfold bind. rewrite remove_ignoring_errors, IH. reflexivity.
Qed.

(** X18: the exit loop of [main], for whatever names the listing of the
    temporary directory gave: it never raises, also when a listed file
    is gone by then; afterwards no listed name has a file, every other
    path is as before; so a temporary video whose name was listed is
    removed, whether or not a collection still refers to it. *)
Theorem remove_listed_effect (rt : runtime) (names : list str) (st : state) :
  let st' := exec (remove_listed rt names) st in
  result (remove_listed rt names) st = Returned tt /\
  (forall p : str,
     fs st' !! p
     = if decide (p ∈ map (path_join (TEMP_DIR rt)) names) then None
       else fs st !! p) /\
  (forall user_id unique,
     u "temp_" ++ str_int user_id ++ u "_" ++ unique ++ u ".mp4" ∈ names ->
     fs st' !! temp_video_path rt user_id unique = None).
Proof.
  cbv zeta. unfold result, exec. rewrite remove_listed_spec. cbn [fst snd fs].
  assert (Hl : forall p : str,
             delete_paths (map (path_join (TEMP_DIR rt)) names) (fs st) !! p
             = if decide (p ∈ map (path_join (TEMP_DIR rt)) names) then None
               else fs st !! p).
  { intros p. destruct (decide (p ∈ _)) as [Hin | Hout].
    - apply lookup_delete_paths_in, list_elem_of_In, Hin.
    - apply lookup_delete_paths_out. intros H. apply Hout, list_elem_of_In, H. }
  split; [reflexivity |]. split; [exact Hl |].
  intros user_id unique Hin. rewrite Hl.
  destruct (decide (_ ∈ _)) as [_ | Hout]; [reflexivity |].
  exfalso. apply Hout. unfold temp_video_path.
  apply list_elem_of_In, in_map, list_elem_of_In, Hin.
Qed.

(** ** Nothing outside the temporary directory *)

Lemma path_join_prefix a b : startswith sep b = false -> a `prefix_of` path_join a b.
Proof.
  intros H. unfold path_join. rewrite H.
  destruct (_ || _); [exists b | exists (sep :: b)]; reflexivity.
Qed.

Lemma own_paths_in_temp_dir rt user_id :
  (forall unique, TEMP_DIR rt `prefix_of` temp_video_path rt user_id unique) /\
  TEMP_DIR rt `prefix_of` zip_path_of rt user_id.
Proof. split; [intros unique |]; apply path_join_prefix; reflexivity. Qed.

(** X19: the handlers write and delete only under paths that start with
    [TEMP_DIR]. Whatever updates a session handles, a file whose path
    does not start with [TEMP_DIR] is never created, changed or
    removed. *)
Theorem nothing_outside_temp_dir (rt : runtime) (user_id : Z)
    (updates : list update) (st : state) (p : str) :
  session_inv rt user_id st ->
  ~ TEMP_DIR rt `prefix_of` p ->
  fs (exec (run rt user_id updates) st) !! p = fs st !! p.
Proof.
  intros Hinv Hp. apply run_frame; [exact Hinv |].
  destruct (own_paths_in_temp_dir rt user_id) as [Ht Hz].
  split; [intros unique E | intros E]; apply Hp; rewrite E; [apply Ht | apply Hz].
Qed.

Lemma nothing_outside_temp_dir_witness :
  let st := {| user_data := None; fs := {[ u "/etc/passwd" := Blob [1] ]};
               outbox := [] |} in
  session_inv example_runtime 7 st /\
  ~ TEMP_DIR example_runtime `prefix_of` u "/etc/passwd" /\
  fs (exec (run example_runtime 7
              [video_update (video_message (u "AgAD") (Some (u "clip")));
               zip_command no_faults; error_update true])
           st) !! u "/etc/passwd"
  = Some (Blob [1]).
Proof.
  cbv zeta.
  assert (Hinv : session_inv example_runtime 7
            {| user_data := None; fs := {[ u "/etc/passwd" := Blob [1] ]};
               outbox := [] |}).
  { repeat split; try constructor; vm_compute; reflexivity. }
  assert (Hp : ~ TEMP_DIR example_runtime `prefix_of` u "/etc/passwd").
  { intros [k Hk]. vm_compute in Hk. discriminate Hk. }
  split; [exact Hinv |]. split; [exact Hp |].
  rewrite (nothing_outside_temp_dir example_runtime 7 _ _ _ Hinv Hp).
  vm_compute. reflexivity.
Defined.
